(** * Pod specification pipeline of hyper ([pod/pod.go])

    A shallow embedding of the decode / default / validate pipeline:
    [ProcessPodBytes], [RandStr], [Validate], [keySet] and
    [InterfaceSlice], together with the small parts of the Go standard
    library the code leans on ([fmt.Errorf], [regexp.Match],
    [crypto/rand.Read]).

    Go strings are byte sequences and are modelled by [string] (a list
    of 8-bit [ascii]); Go [int] fields are modelled by [Z] (the code
    only compares them with 0); slices are lists; [map[string]bool] is
    [gmap string bool]. *)

From Stdlib Require Import ZArith NArith Ascii String DecimalString Lia.
From Stdlib Require DecimalPos DecimalZ.
From stdpp Require Import base option list gmap strings.

Local Open Scope string_scope.
Set Warnings "-clear-no-such-hyp".

(** ** Pod data structure *)

Record UserContainerPort := {
  port_HostPort : Z;
  port_ContainerPort : Z;
  port_ServicePort : Z;
  port_Protocol : string
}.

Record UserEnvironmentVar := {
  env_Env : string;
  env_Value : string
}.

Record UserVolumeReference := {
  vref_Path : string;
  vref_Volume : string;
  vref_ReadOnly : bool
}.

Record UserFileReference := {
  fref_Path : string;
  fref_Filename : string;
  fref_Perm : string;
  fref_User : string;
  fref_Group : string
}.

Record UserContainer := {
  ctr_Name : string;
  ctr_Image : string;
  ctr_Command : list string;
  ctr_Workdir : string;
  ctr_Entrypoint : list string;
  ctr_Ports : list UserContainerPort;
  ctr_Envs : list UserEnvironmentVar;
  ctr_Volumes : list UserVolumeReference;
  ctr_Files : list UserFileReference;
  ctr_RestartPolicy : string
}.

Record UserResource := {
  res_Vcpu : Z;
  res_Memory : Z
}.

Record UserFile := {
  file_Name : string;
  file_Encoding : string;
  file_Uri : string;
  file_Contents : string
}.

Record UserVolume := {
  vol_Name : string;
  vol_Source : string;
  vol_Driver : string
}.

Record UserPod := {
  pod_Name : string;
  pod_Containers : list UserContainer;
  pod_Resource : UserResource;
  pod_Files : list UserFile;
  pod_Volumes : list UserVolume;
  pod_Tty : bool;
  pod_Type : string
}.

(** Field assignments of the source ([userPod.Name = ...],
    [userPod.Resource.Vcpu = ...], [f.Perm = ...]). *)

Definition set_pod_Name (p : UserPod) (s : string) : UserPod :=
  {| pod_Name := s; pod_Containers := pod_Containers p;
     pod_Resource := pod_Resource p; pod_Files := pod_Files p;
     pod_Volumes := pod_Volumes p; pod_Tty := pod_Tty p;
     pod_Type := pod_Type p |}.

Definition set_pod_Resource (p : UserPod) (r : UserResource) : UserPod :=
  {| pod_Name := pod_Name p; pod_Containers := pod_Containers p;
     pod_Resource := r; pod_Files := pod_Files p;
     pod_Volumes := pod_Volumes p; pod_Tty := pod_Tty p;
     pod_Type := pod_Type p |}.

Definition set_res_Vcpu (r : UserResource) (n : Z) : UserResource :=
  {| res_Vcpu := n; res_Memory := res_Memory r |}.

Definition set_res_Memory (r : UserResource) (n : Z) : UserResource :=
  {| res_Vcpu := res_Vcpu r; res_Memory := n |}.

Definition set_fref_Perm (f : UserFileReference) (s : string) : UserFileReference :=
  {| fref_Path := fref_Path f; fref_Filename := fref_Filename f;
     fref_Perm := s; fref_User := fref_User f; fref_Group := fref_Group f |}.

(** A Go [error] value: [None] is [nil], [Some msg] an error whose
    [Error()] text is [msg]. *)
Definition error : Type := option string.

(** ** [fmt.Errorf] / [fmt.Sprintf]

    The formats of [pod.go] use the verbs [%d] and [%s] only; those two
    (and [%v], [%%]) are interpreted here, with the diagnostics the [fmt]
    package prints for a missing operand, an operand of the wrong type
    and left-over operands. *)

Inductive fmt_arg :=
| ArgInt (n : Z)
| ArgString (s : string).

Definition itoa (n : Z) : string := NilZero.string_of_int (Z.to_int n).

Definition fmt_type_value (a : fmt_arg) : string :=
  match a with
  | ArgInt n => "int=" +:+ itoa n
  | ArgString s => "string=" +:+ s
  end.

Definition fmt_bad_verb (verb : ascii) (a : fmt_arg) : string :=
  "%!" +:+ String verb ("(" +:+ fmt_type_value a +:+ ")").

Definition fmt_print_arg (verb : ascii) (a : fmt_arg) : string :=
  match a with
  | ArgInt n =>
      if (verb =? "d")%char || (verb =? "v")%char then itoa n
      else fmt_bad_verb verb a
  | ArgString s =>
      if (verb =? "s")%char || (verb =? "v")%char then s
      else fmt_bad_verb verb a
  end.

Fixpoint fmt_extra_list (a : list fmt_arg) : string :=
  match a with
  | [] => EmptyString
  | [x] => fmt_type_value x
  | x :: rest => fmt_type_value x +:+ ", " +:+ fmt_extra_list rest
  end.

Definition fmt_extra (a : list fmt_arg) : string :=
  match a with
  | [] => EmptyString
  | _ => "%!(EXTRA " +:+ fmt_extra_list a +:+ ")"
  end.

Fixpoint Sprintf (format : string) (a : list fmt_arg) : string :=
  match format with
  | EmptyString => fmt_extra a
  | String c rest =>
      if (c =? "%")%char then
        match rest with
        | EmptyString => "%!(NOVERB)" +:+ fmt_extra a
        | String verb rest' =>
            if (verb =? "%")%char then String "%" (Sprintf rest' a)
            else
              match a with
              | [] => "%!" +:+ String verb ("(MISSING)" +:+ Sprintf rest' [])
              | x :: a' => fmt_print_arg verb x +:+ Sprintf rest' a'
              end
        end
      else String c (Sprintf rest a)
  end.

Definition Errorf (format : string) (a : list fmt_arg) : error :=
  Some (Sprintf format a).

(** [errors.New]. *)
Definition errors_New (text : string) : error := Some text.

(** The line feed that ends the messages of [ProcessPodBytes]. *)
Definition LF : string := String (ascii_of_nat 10) EmptyString.

(** ** [regexp]: the fragment used by [permReg]

    Literals, byte ranges, concatenation and bounded repetition, with a
    backtracking matcher.  [regexp.Match] reports whether the input
    CONTAINS a match: the search is not anchored. *)

Inductive Regexp :=
| ReLit (c : ascii)
| ReRange (lo hi : ascii)
| ReCat (r1 r2 : Regexp)
| ReRepeat (n : nat) (r : Regexp).

Fixpoint iter_flat {A : Type} (n : nat) (f : A → list A) (xs : list A) : list A :=
  match n with
  | O => xs
  | S n' => iter_flat n' f (xs ≫= f)
  end.

(** [re_step r s]: the remainders of [s] after each way [r] matches a
    prefix of [s]. *)
Fixpoint re_step (r : Regexp) (s : string) : list string :=
  match r with
  | ReLit c =>
      match s with
      | String c' t => if (c =? c')%char then [t] else []
      | EmptyString => []
      end
  | ReRange lo hi =>
      match s with
      | String c' t =>
          if (N_of_ascii lo <=? N_of_ascii c')%N && (N_of_ascii c' <=? N_of_ascii hi)%N
          then [t] else []
      | EmptyString => []
      end
  | ReCat r1 r2 => re_step r1 s ≫= re_step r2
  | ReRepeat n r1 => iter_flat n (re_step r1) [s]
  end.

Definition re_match_here (r : Regexp) (s : string) : bool :=
  match re_step r s with
  | [] => false
  | _ => true
  end.

Fixpoint re_Match (r : Regexp) (s : string) : bool :=
  re_match_here r s ||
  match s with
  | EmptyString => false
  | String _ t => re_Match r t
  end.

(** [regexp.MustCompile("0[0-7]{3}")]. *)
Definition permReg : Regexp :=
  ReCat (ReLit "0") (ReRepeat 3 (ReRange "0" "7")).

(** ** [crypto/rand] and [RandStr]

    The process-wide random source is an unbounded tape of bytes;
    [rand_Read n] takes the next [n] bytes off it (whatever [rand.Read]
    leaves in the buffer is some sequence of [n] bytes).  A computation that
    panics (division by zero, index out of range, [make] length out of
    range) yields [None]. *)

Definition RandSrc : Type := nat → ascii.

Definition rand_Read (n : nat) (src : RandSrc) : list ascii * RandSrc :=
  (src <$> seq 0 n, λ i, src (n + i)%nat).

(** [make([]byte, n)] panics with "len out of range" on a negative [n]
    and on an [n] above the allocation limit of the runtime.  The limit
    taken here, [2^48], is the one of linux/amd64, the platform hyper runs
    on; other targets and older releases have a lower one, never below
    [2^31 - 1]. *)
Definition make_limit : Z := 281474976710656.

Definition make_panics (n : Z) : bool :=
  (n <? 0)%Z || (make_limit <? n)%Z.

(** [byte(len(dictionary))]: conversion to an 8-bit value wraps. *)
Definition byte_of_len (dictionary : string) : N :=
  (N.of_nat (String.length dictionary) mod 256)%N.

(** The loop [for k, v := range bytes { bytes[k] = dictionary[v%byte(len(dictionary))] }]. *)
Fixpoint RandStr_range (dictionary : string) (bytes : list ascii) : option (list ascii) :=
  match bytes with
  | [] => Some []
  | v :: rest =>
      if (byte_of_len dictionary =? 0)%N then None
      else
        match String.get (N.to_nat (N_of_ascii v mod byte_of_len dictionary)%N) dictionary with
        | None => None
        | Some c =>
            match RandStr_range dictionary rest with
            | None => None
            | Some rest' => Some (c :: rest')
            end
        end
  end.

Definition RandStr (strSize : Z) (randType : string) (src : RandSrc)
  : option (string * RandSrc) :=
  let dictionary := EmptyString in
  let dictionary :=
    if String.eqb randType "alphanum"
    then "0123456789abcdefghijklmnopqrstuvwxyz" else dictionary in
  let dictionary :=
    if String.eqb randType "alpha"
    then "ABCDEFGHIJKLMNOPQRSTUVWXYZabcdefghijklmnopqrstuvwxyz" else dictionary in
  let dictionary :=
    if String.eqb randType "number"
    then "0123456789" else dictionary in
  if make_panics strSize then None
  else
    let '(bytes, src') := rand_Read (Z.to_nat strSize) src in
    match RandStr_range dictionary bytes with
    | None => None
    | Some bytes' => Some (string_of_list_ascii bytes', src')
    end.


(** ** The uniqueness checker: [item], [InterfaceSlice], [keySet] *)

(** [type item interface { key() string }] and its four implementations. *)
Class item (T : Type) := key : T → string.

#[global] Instance UserVolume_item : item UserVolume := vol_Name.
#[global] Instance UserVolumeReference_item : item UserVolumeReference := vref_Volume.
#[global] Instance UserFile_item : item UserFile := file_Name.
#[global] Instance UserEnvironmentVar_item : item UserEnvironmentVar := env_Env.

(** A value of type [interface{}] with its dynamic type: the record
    types of the package, some scalars, and slices.  The elements of a
    slice carry their own dynamic type, as the elements of a
    [[]interface{}] do. *)
#[warnings="-register-all"] Inductive any :=
| AnyNil
| AnyBool (b : bool)
| AnyInt (n : Z)
| AnyString (s : string)
| AnyContainerPort (p : UserContainerPort)
| AnyEnvironmentVar (e : UserEnvironmentVar)
| AnyVolumeReference (v : UserVolumeReference)
| AnyFileReference (f : UserFileReference)
| AnyContainer (c : UserContainer)
| AnyResource (r : UserResource)
| AnyFile (f : UserFile)
| AnyVolume (v : UserVolume)
| AnySlice (elems : list any).

(** The type switch [case item:] with the call [x.(item).key()]:
    [Some k] when the dynamic type of [x] implements [item]. *)
Definition item_key (x : any) : option string :=
  match x with
  | AnyVolume v => Some (key v)
  | AnyVolumeReference v => Some (key v)
  | AnyFile f => Some (key f)
  | AnyEnvironmentVar e => Some (key e)
  | _ => None
  end.

Definition InterfaceSlice (slice : any) : string + list any :=
  match slice with
  | AnySlice elems => inr elems
  | _ => inl "InterfaceSlice() given a non-slice type"
  end.

(** [_, ok := m[k]]. *)
Definition map_has (m : gmap string bool) (k : string) : bool :=
  match m !! k with
  | Some _ => true
  | None => false
  end.

(** The loop of [keySet] over [tmp], started with the keys [iset]. *)
Fixpoint keySet_range (tmp : list any) (iset : gmap string bool)
  : bool * gmap string bool :=
  match tmp with
  | [] => (true, iset)
  | x :: rest =>
      match item_key x with
      | Some kx =>
          if map_has iset kx then (false, iset)
          else keySet_range rest (<[kx := true]> iset)
      | None => (false, iset)
      end
  end.

(** A [nil] map has no entries and is read like the empty map. *)
Definition keySet (ilist : any) : bool * gmap string bool :=
  match InterfaceSlice ilist with
  | inl _ => (false, ∅)
  | inr tmp => keySet_range tmp ∅
  end.

(** ** [Validate]

    The method has a pointer receiver, so its body runs in a state
    monad over the record [pod] points to; [inl e] records that
    [return e] was executed. *)

Definition VM (A : Type) : Type := UserPod → (error + A) * UserPod.

Definition vm_ret {A : Type} (a : A) : VM A := λ σ, (inr a, σ).

Definition vm_bind {A B : Type} (m : VM A) (k : A → VM B) : VM B :=
  λ σ, match m σ with
       | (inl e, σ') => (inl e, σ')
       | (inr a, σ') => k a σ'
       end.

Definition vm_return {A : Type} (e : error) : VM A := λ σ, (inl e, σ).

(** Reading a field through the receiver: [pod.Volumes] and the like. *)
Definition vm_read {A : Type} (field : UserPod → A) : VM A :=
  λ σ, (inr (field σ), σ).

Notation "'let*' x ':=' m 'in' k" := (vm_bind m (λ x, k))
  (at level 10, x name, m at level 100, k at level 200, only parsing).
Notation "m ';;;' k" := (vm_bind m (λ _, k))
  (at level 100, k at level 200, right associativity, only parsing).

(** [if c { return e }]. *)
Definition return_if (c : bool) (e : error) : VM unit :=
  if c then vm_return e else vm_ret tt.

(** [for _, f := range container.Files { ... }].  [f] is the loop's own
    copy of the element; [f.Perm = ...] assigns to that copy. *)
Fixpoint Validate_range_Files (fset : gmap string bool) (idx : nat)
    (files : list UserFileReference) : VM unit :=
  match files with
  | [] => vm_ret tt
  | f :: rest =>
      return_if (negb (map_has fset (fref_Filename f)))
        (Errorf "in container %d, file %s does not exist in file list."
                [ArgInt (Z.of_nat idx); ArgString (fref_Filename f)]) ;;;
      let f := if String.eqb (fref_Perm f) EmptyString
               then set_fref_Perm f "0755" else f in
      return_if (negb (String.eqb (fref_Perm f) "0")
                 && negb (re_Match permReg (fref_Perm f)))
        (Errorf "in container %d, the permission %s only accept Octal digital in string"
                []) ;;;
      Validate_range_Files fset idx rest
  end.

(** [for _, v := range container.Volumes { ... }]. *)
Fixpoint Validate_range_Volumes (vset : gmap string bool) (idx : nat)
    (volumes : list UserVolumeReference) : VM unit :=
  match volumes with
  | [] => vm_ret tt
  | v :: rest =>
      return_if (negb (map_has vset (vref_Volume v)))
        (Errorf "in container %d, volume %s does not exist in volume list."
                [ArgInt (Z.of_nat idx); ArgString (vref_Volume v)]) ;;;
      Validate_range_Volumes vset idx rest
  end.

(** [for idx, container := range pod.Containers { ... }], entered at
    index [idx] with the containers still to visit. *)
Fixpoint Validate_range_Containers (vset fset : gmap string bool) (idx : nat)
    (containers : list UserContainer) : VM unit :=
  match containers with
  | [] => vm_ret tt
  | container :: rest =>
      return_if (negb (fst (keySet (AnySlice (AnyVolumeReference <$> ctr_Volumes container)))))
        (Errorf "in container %d, volume source are not unique"
                [ArgInt (Z.of_nat idx)]) ;;;
      return_if (negb (fst (keySet (AnySlice (AnyEnvironmentVar <$> ctr_Envs container)))))
        (Errorf "in container %d, environment name are not unique"
                [ArgInt (Z.of_nat idx)]) ;;;
      Validate_range_Files fset idx (ctr_Files container) ;;;
      Validate_range_Volumes vset idx (ctr_Volumes container) ;;;
      Validate_range_Containers vset fset (S idx) rest
  end.

Definition Validate_body : VM unit :=
  let* volumes := vm_read pod_Volumes in
  let '(uniq, vset) := keySet (AnySlice (AnyVolume <$> volumes)) in
  return_if (negb uniq && (0 <? size vset)%nat)
    (errors_New "Volumes name does not unique") ;;;
  let* files := vm_read pod_Files in
  let '(uniq, fset) := keySet (AnySlice (AnyFile <$> files)) in
  return_if (negb uniq && (0 <? size fset)%nat)
    (errors_New "Files name does not unique") ;;;
  let* containers := vm_read pod_Containers in
  Validate_range_Containers vset fset 0 containers ;;;
  vm_return None.

(** The call [pod.Validate()]: the error returned and the record [pod]
    points to once the call is over. *)
Definition Validate_exec (pod : UserPod) : error * UserPod :=
  match Validate_body pod with
  | (inl e, pod') => (e, pod')
  | (inr _, pod') => (None, pod')
  end.

Definition Validate (pod : UserPod) : error := fst (Validate_exec pod).

(** ** [ProcessPodBytes] *)

(** [for _, v = range userPod.Containers { ... num++ }]: the error
    returned from inside the loop, or the final value of [num]. *)
Fixpoint ProcessPodBytes_range_Containers (containers : list UserContainer) (num : Z)
  : error + Z :=
  match containers with
  | [] => inr num
  | v :: rest =>
      if String.eqb (ctr_Image v) EmptyString
      then inl (Errorf ("Please specific your image for your container, it can not be null!" +:+ LF) [])
      else ProcessPodBytes_range_Containers rest (num + 1)
  end.

(** [for _, vol = range userPod.Volumes { ... }]: the error returned
    from inside the loop, if any. *)
Fixpoint ProcessPodBytes_range_Volumes (volumes : list UserVolume) : option error :=
  match volumes with
  | [] => None
  | vol :: rest =>
      if String.eqb (vol_Name vol) EmptyString
      then Some (Errorf ("Hyper ERROR: please specific your volume name, it can not be null!" +:+ LF) [])
      else ProcessPodBytes_range_Volumes rest
  end.

Section Decoder.

(** [json.Unmarshal(body, &userPod)] belongs to the standard library:
    it is a parameter, giving either the error text or the decoded
    record. *)
Variable json_Unmarshal : string → string + UserPod.

(** The result is Go's pair of a [UserPod] pointer and an [error],
    with the random source left behind; the outer [option] is [None] on
    a panic. *)
Definition ProcessPodBytes (body : string) (src : RandSrc)
  : option ((option UserPod * error) * RandSrc) :=
  match json_Unmarshal body with
  | inl err => Some ((None, Some err), src)
  | inr userPod =>
      '(userPod, src) ←
        (if String.eqb (pod_Name userPod) EmptyString
         then '(name, src') ← RandStr 10 "alphanum" src;
              Some (set_pod_Name userPod name, src')
         else Some (userPod, src));
      let userPod :=
        if (res_Vcpu (pod_Resource userPod) =? 0)%Z
        then set_pod_Resource userPod (set_res_Vcpu (pod_Resource userPod) 1)
        else userPod in
      let userPod :=
        if (res_Memory (pod_Resource userPod) =? 0)%Z
        then set_pod_Resource userPod (set_res_Memory (pod_Resource userPod) 128)
        else userPod in
      match ProcessPodBytes_range_Containers (pod_Containers userPod) 0 with
      | inl err => Some ((None, err), src)
      | inr num =>
          if (num =? 0)%Z
          then Some ((None,
                      Errorf ("Please correct your POD file, the container section can not be null!" +:+ LF) []),
                     src)
          else
            match ProcessPodBytes_range_Volumes (pod_Volumes userPod) with
            | Some err => Some ((None, err), src)
            | None => Some ((Some userPod, None), src)
            end
      end
  end.

End Decoder.

(** ** [ProcessPodFile] *)

(** An error of the [os] package: its text and what [os.IsNotExist]
    answers on it. *)
Record os_error := {
  oserr_text : string;
  oserr_IsNotExist : bool
}.

Section Files.

Variable json_Unmarshal : string → string + UserPod.

(** [os.Stat] (its error only, [None] for [nil]) and [ioutil.ReadFile]
    belong to the standard library; they are two separate calls into the
    file system and so two parameters. *)
Variable os_Stat : string → option os_error.
Variable ioutil_ReadFile : string → os_error + string.

Definition ProcessPodFile (jsonFile : string) (src : RandSrc)
  : option ((option UserPod * error) * RandSrc) :=
  let stat_not_exist :=
    match os_Stat jsonFile with
    | Some err => if oserr_IsNotExist err then Some err else None
    | None => None
    end in
  match stat_not_exist with
  | Some err => Some ((None, Some (oserr_text err)), src)
  | None =>
      match ioutil_ReadFile jsonFile with
      | inl err => Some ((None, Some (oserr_text err)), src)
      | inr body => ProcessPodBytes json_Unmarshal body src
      end
  end.

End Files.

(** * Vocabulary of the statements *)

Local Open Scope list_scope.

(** The map [keySet] builds for a set of keys: every key bound to [true]. *)
Definition key_map (ks : list string) : gmap string bool :=
  gset_to_gmap true (list_to_set ks).

(** [keyed l ks]: every element of [l] implements [item], and [ks] are
    the keys in order. *)
Definition keyed (l : list any) (ks : list string) : Prop :=
  Forall2 (λ x k, item_key x = Some k) l ks.


Definition mkVolume (name : string) : UserVolume :=
  {| vol_Name := name; vol_Source := EmptyString; vol_Driver := EmptyString |}.

(** [[]interface{}{UserVolume{Name: "a"}, 42}]. *)
Definition mixed_slice : any := AnySlice [AnyVolume (mkVolume "a"); AnyInt 42].

(** The test [Validate] applies to the [perm] field of a file mount:
    the default for an unset field, the literal [0], the pattern. *)
Definition perm_check (perm : string) : bool :=
  let perm := if String.eqb perm EmptyString then "0755" else perm in
  String.eqb perm "0" || re_Match permReg perm.

(** The errors of the per-container checks, as the source builds them. *)
Definition dup_mount_error (idx : nat) : error :=
  Errorf "in container %d, volume source are not unique" [ArgInt (Z.of_nat idx)].

Definition dup_env_error (idx : nat) : error :=
  Errorf "in container %d, environment name are not unique" [ArgInt (Z.of_nat idx)].

Definition file_error (idx : nat) (name : string) : error :=
  Errorf "in container %d, file %s does not exist in file list."
         [ArgInt (Z.of_nat idx); ArgString name].

Definition volume_error (idx : nat) (name : string) : error :=
  Errorf "in container %d, volume %s does not exist in volume list."
         [ArgInt (Z.of_nat idx); ArgString name].

Definition perm_error : error :=
  Errorf "in container %d, the permission %s only accept Octal digital in string" [].

(** The preconditions of the reference checks: the catalogs and every
    container's mounts and environment pass the uniqueness checks. *)
Definition catalogs_unique (pod : UserPod) : Prop :=
  NoDup (vol_Name <$> pod_Volumes pod) ∧ NoDup (file_Name <$> pod_Files pod).

Definition mounts_unique (c : UserContainer) : Prop :=
  NoDup (vref_Volume <$> ctr_Volumes c) ∧ NoDup (env_Env <$> ctr_Envs c).

Definition containers_unique (pod : UserPod) : Prop :=
  Forall mounts_unique (pod_Containers pod).

(** Container [idx] has a file mount (volume mount) whose name is not
    in the top-level catalog. *)
Definition dangling_file (pod : UserPod) (idx : nat) (name : string) : Prop :=
  ∃ c, pod_Containers pod !! idx = Some c ∧
       name ∈ (fref_Filename <$> ctr_Files c) ∧
       name ∉ (file_Name <$> pod_Files pod).

Definition dangling_volume (pod : UserPod) (idx : nat) (name : string) : Prop :=
  ∃ c, pod_Containers pod !! idx = Some c ∧
       name ∈ (vref_Volume <$> ctr_Volumes c) ∧
       name ∉ (vol_Name <$> pod_Volumes pod).

Definition dangling (pod : UserPod) : Prop :=
  ∃ idx name, dangling_file pod idx name ∨ dangling_volume pod idx name.

(** [Validate] fails with an error that names a dangling reference:
    its container index and the missing name. *)
Definition reports_dangling (pod : UserPod) : Prop :=
  ∃ idx name,
    (dangling_file pod idx name ∧ Validate pod = file_error idx name) ∨
    (dangling_volume pod idx name ∧ Validate pod = volume_error idx name).

Definition files_perms_pass (c : UserContainer) : Prop :=
  Forall (λ f, perm_check (fref_Perm f) = true) (ctr_Files c).

Definition perms_pass (pod : UserPod) : Prop :=
  Forall files_perms_pass (pod_Containers pod).

(** References of one container against catalogs given by their names. *)
Definition files_resolve (fnames : list string) (c : UserContainer) : Prop :=
  Forall (λ f, fref_Filename f ∈ fnames) (ctr_Files c).

Definition volumes_resolve (vnames : list string) (c : UserContainer) : Prop :=
  Forall (λ v, vref_Volume v ∈ vnames) (ctr_Volumes c).

Definition mkFile (name : string) : UserFile :=
  {| file_Name := name; file_Encoding := EmptyString;
     file_Uri := EmptyString; file_Contents := EmptyString |}.

Definition mkFileReference (filename perm : string) : UserFileReference :=
  {| fref_Path := EmptyString; fref_Filename := filename; fref_Perm := perm;
     fref_User := EmptyString; fref_Group := EmptyString |}.

(** A container with an image and file mounts, every other field at
    its zero value. *)
Definition mkContainer (image : string) (files : list UserFileReference) : UserContainer :=
  {| ctr_Name := EmptyString; ctr_Image := image; ctr_Command := [];
     ctr_Workdir := EmptyString; ctr_Entrypoint := []; ctr_Ports := [];
     ctr_Envs := []; ctr_Volumes := []; ctr_Files := files;
     ctr_RestartPolicy := EmptyString |}.

Definition mkPod (name : string) (containers : list UserContainer)
    (files : list UserFile) (volumes : list UserVolume) : UserPod :=
  {| pod_Name := name; pod_Containers := containers;
     pod_Resource := {| res_Vcpu := 1; res_Memory := 128 |};
     pod_Files := files; pod_Volumes := volumes;
     pod_Tty := false; pod_Type := EmptyString |}.

(** One container mounting the catalogued file [a] with the permission
    [755], then the file [missing], which the catalog does not hold. *)
Definition pod_perm_before_dangling : UserPod :=
  mkPod "p"
    [mkContainer "busybox"
       [mkFileReference "a" "755"; mkFileReference "missing" "0755"]]
    [mkFile "a"] [].

(** A pod whose only container mounts the catalogued file [a] with the
    permission string [perm]. *)
Definition pod_with_perm (perm : string) : UserPod :=
  mkPod "p" [mkContainer "busybox" [mkFileReference "a" perm]] [mkFile "a"] [].

(** [n] containers without mounts, then one that mounts the catalogued
    file [a] with the permission string [perm]: the offending container
    has index [n]. *)
Definition pod_bad_perm_at (n : nat) (perm : string) : UserPod :=
  mkPod "p"
    (replicate n (mkContainer "busybox" [])
     ++ [mkContainer "busybox" [mkFileReference "a" perm]])
    [mkFile "a"] [].

(** The pattern in the words of the specification: a leading zero
    followed by exactly three octal digits. *)
Definition is_octal_digit (c : ascii) : bool :=
  (N_of_ascii "0" <=? N_of_ascii c)%N && (N_of_ascii c <=? N_of_ascii "7")%N.

Definition octal_perm (s : string) : bool :=
  match s with
  | String z (String a (String b (String c EmptyString))) =>
      (z =? "0")%char && is_octal_digit a && is_octal_digit b && is_octal_digit c
  | _ => false
  end.

(** Two containers, the second mounting the catalogued file [a] and
    then the file [zz], which the catalog does not hold. *)
Definition pod_dangling_file : UserPod :=
  mkPod "p"
    [mkContainer "busybox" [];
     mkContainer "busybox" [mkFileReference "a" "0755"; mkFileReference "zz" EmptyString]]
    [mkFile "a"] [mkVolume "data"].

(** The alphabet [[0-9a-z]]. *)
Definition is_alphanum (c : ascii) : bool :=
  ((N_of_ascii "0" <=? N_of_ascii c)%N && (N_of_ascii c <=? N_of_ascii "9")%N) ||
  ((N_of_ascii "a" <=? N_of_ascii c)%N && (N_of_ascii c <=? N_of_ascii "z")%N).

(** The errors of the structural checks of [ProcessPodBytes]. *)
Definition missing_image_error : error :=
  Errorf ("Please specific your image for your container, it can not be null!" +:+ LF) [].

Definition zero_containers_error : error :=
  Errorf ("Please correct your POD file, the container section can not be null!" +:+ LF) [].

Definition empty_volume_name_error : error :=
  Errorf ("Hyper ERROR: please specific your volume name, it can not be null!" +:+ LF) [].

(** What [json.Unmarshal] leaves in a zero [UserPod] for a document
    with one container, its image set, and nothing else. *)
Definition minimal_pod (image : string) : UserPod :=
  {| pod_Name := EmptyString;
     pod_Containers := [mkContainer image []];
     pod_Resource := {| res_Vcpu := 0; res_Memory := 0 |};
     pod_Files := []; pod_Volumes := [];
     pod_Tty := false; pod_Type := EmptyString |}.

(** The two resource defaults of [ProcessPodBytes] and its structural
    checks, named for the statements below. *)
Definition resource_defaults (userPod : UserPod) : UserPod :=
  let userPod :=
    if (res_Vcpu (pod_Resource userPod) =? 0)%Z
    then set_pod_Resource userPod (set_res_Vcpu (pod_Resource userPod) 1)
    else userPod in
  if (res_Memory (pod_Resource userPod) =? 0)%Z
  then set_pod_Resource userPod (set_res_Memory (pod_Resource userPod) 128)
  else userPod.

Definition structural_checks (userPod : UserPod) : option UserPod * error :=
  match ProcessPodBytes_range_Containers (pod_Containers userPod) 0 with
  | inl err => (None, err)
  | inr num =>
      if (num =? 0)%Z then (None, zero_containers_error)
      else
        match ProcessPodBytes_range_Volumes (pod_Volumes userPod) with
        | Some err => (None, err)
        | None => (Some userPod, None)
        end
  end.

(** The document [{"containers":[{"image":"busybox"}]}]. *)
Definition quoted (s : string) : string :=
  String (ascii_of_nat 34) s +:+ String (ascii_of_nat 34) EmptyString.

Definition minimal_document : string :=
  "{" +:+ quoted "containers" +:+ ":[{" +:+ quoted "image" +:+ ":"
  +:+ quoted "busybox" +:+ "}]}".

(** A decoder that knows [minimal_document] only. *)
Definition decode_minimal (body : string) : string + UserPod :=
  if String.eqb body minimal_document then inr (minimal_pod "busybox")
  else inl "unexpected end of JSON input".

(** The random tape 0, 1, 2, ... *)
Definition counting_source : RandSrc := λ i, ascii_of_nat i.


(** A decoder standing for [json.Unmarshal] on a document that holds
    exactly the record [userPod]. *)
Definition decode_as (userPod : UserPod) (body : string) : string + UserPod :=
  inr userPod.

(** The names of the two catalogs. *)
Definition volume_names (pod : UserPod) : list string := vol_Name <$> pod_Volumes pod.
Definition file_names (pod : UserPod) : list string := file_Name <$> pod_Files pod.

(** A file mount that names a catalogued file and whose permission
    string passes the check. *)
Definition file_mount_ok (fnames : list string) (f : UserFileReference) : Prop :=
  fref_Filename f ∈ fnames ∧ perm_check (fref_Perm f) = true.

(** A container that passes every per-container check. *)
Definition container_ok (vnames fnames : list string) (c : UserContainer) : Prop :=
  mounts_unique c ∧
  Forall (file_mount_ok fnames) (ctr_Files c) ∧
  volumes_resolve vnames c.

Definition mkVolumeReference (volume : string) : UserVolumeReference :=
  {| vref_Path := EmptyString; vref_Volume := volume; vref_ReadOnly := false |}.

Definition mkEnvironmentVar (env : string) : UserEnvironmentVar :=
  {| env_Env := env; env_Value := EmptyString |}.

(** A container given by its environment, volume mounts and file mounts. *)
Definition mkContainerWith (envs : list UserEnvironmentVar)
    (volumes : list UserVolumeReference) (files : list UserFileReference)
  : UserContainer :=
  {| ctr_Name := EmptyString; ctr_Image := "busybox"; ctr_Command := [];
     ctr_Workdir := EmptyString; ctr_Entrypoint := []; ctr_Ports := [];
     ctr_Envs := envs; ctr_Volumes := volumes; ctr_Files := files;
     ctr_RestartPolicy := EmptyString |}.

(** A container that mounts the volume [data] and the file [a] and is
    fine against the catalogs [data] and [a]. *)
Definition good_container : UserContainer :=
  mkContainerWith [mkEnvironmentVar "HOME"] [mkVolumeReference "data"]
    [mkFileReference "a" EmptyString].

(** The catalogs [data] and [a] with the containers [containers]. *)
Definition catalogued_pod (containers : list UserContainer) : UserPod :=
  mkPod "p" containers [mkFile "a"] [mkVolume "data"].

(** What the structural checks of [ProcessPodBytes] demand of a record:
    a container, an image in every container, a name on every volume. *)
Definition structurally_sound (p : UserPod) : Prop :=
  pod_Containers p ≠ [] ∧
  Forall (λ c, ctr_Image c ≠ EmptyString) (pod_Containers p) ∧
  Forall (λ v, vol_Name v ≠ EmptyString) (pod_Volumes p).

(** A decoded record with explicit name and resources. *)
Definition named_pod (name : string) (vcpu memory : Z) : UserPod :=
  {| pod_Name := name;
     pod_Containers := [mkContainer "busybox" []];
     pod_Resource := {| res_Vcpu := vcpu; res_Memory := memory |};
     pod_Files := [mkFile "a"]; pod_Volumes := [mkVolume "data"];
     pod_Tty := true; pod_Type := "kvm" |}.

(** The alphabets [[A-Za-z]] and [[0-9]]. *)
Definition is_alpha (c : ascii) : bool :=
  ((N_of_ascii "A" <=? N_of_ascii c)%N && (N_of_ascii c <=? N_of_ascii "Z")%N) ||
  ((N_of_ascii "a" <=? N_of_ascii c)%N && (N_of_ascii c <=? N_of_ascii "z")%N).

Definition is_digit (c : ascii) : bool :=
  (N_of_ascii "0" <=? N_of_ascii c)%N && (N_of_ascii c <=? N_of_ascii "9")%N.

(** A length [make([]byte, n)] accepts on every Go platform: [2^31 - 1],
    the largest [int] of the 32-bit targets. *)
Definition portable_size : Z := 2147483647.

(** A class tag [RandStr] knows. *)
Definition known_class (randType : string) : Prop :=
  randType = "alphanum" ∨ randType = "alpha" ∨ randType = "number".

(** Every reference of a container names a catalogued entry. *)
Definition references_resolve (pod : UserPod) (c : UserContainer) : Prop :=
  files_resolve (file_names pod) c ∧ volumes_resolve (volume_names pod) c.

(** Validation order: the containers in sequence; within a container
    its file mounts in sequence, then its volume mounts in sequence.
    [first_dangling_file pod pre c fpre f]: the file mount [f] of
    container [c] is the first dangling reference in that order; [pre] are
    the containers and [fpre] the file mounts of [c] in front of it. *)
Definition first_dangling_file (pod : UserPod) (pre : list UserContainer)
    (c : UserContainer) (fpre : list UserFileReference) (f : UserFileReference)
  : Prop :=
  (∃ post, pod_Containers pod = pre ++ c :: post) ∧
  Forall (references_resolve pod) pre ∧
  (∃ fpost, ctr_Files c = fpre ++ f :: fpost) ∧
  Forall (λ f', fref_Filename f' ∈ file_names pod) fpre ∧
  fref_Filename f ∉ file_names pod.

(** [first_dangling_volume pod pre c vpre v]: the volume mount [v] of
    container [c] is the first dangling reference in validation order. *)
Definition first_dangling_volume (pod : UserPod) (pre : list UserContainer)
    (c : UserContainer) (vpre : list UserVolumeReference) (v : UserVolumeReference)
  : Prop :=
  (∃ post, pod_Containers pod = pre ++ c :: post) ∧
  Forall (references_resolve pod) pre ∧
  files_resolve (file_names pod) c ∧
  (∃ vpost, ctr_Volumes c = vpre ++ v :: vpost) ∧
  Forall (λ v', vref_Volume v' ∈ volume_names pod) vpre ∧
  vref_Volume v ∉ volume_names pod.

(** The permission strings validated before a reference: those of the
    containers [pre] and of the file mounts [fpre] in front of a file
    mount; those of [pre] and of every file mount of [c] in front of a
    volume mount of [c]. *)
Definition perms_pass_before_file (pre : list UserContainer)
    (fpre : list UserFileReference) : Prop :=
  Forall files_perms_pass pre ∧
  Forall (λ f, perm_check (fref_Perm f) = true) fpre.

Definition perms_pass_before_volume (pre : list UserContainer) (c : UserContainer)
  : Prop :=
  Forall files_perms_pass pre ∧ files_perms_pass c.

(** A dangling file in the first container, a permission string that
    fails the check in the second. *)
Definition pod_dangling_then_bad_perm : UserPod :=
  mkPod "p"
    [mkContainer "busybox" [mkFileReference "zz" EmptyString];
     mkContainer "busybox" [mkFileReference "a" "rwx"]]
    [mkFile "a"] [].

(** * Properties *)

(** ** The uniqueness checker *)

Lemma map_has_gset_to_gmap (S : gset string) (k : string) :
  map_has (gset_to_gmap true S) k = bool_decide (k ∈ S).
Proof.
  unfold map_has. case_bool_decide as Hk.
  - by rewrite (proj2 (lookup_gset_to_gmap_Some true S k true) (conj Hk eq_refl)).
  - by rewrite (proj2 (lookup_gset_to_gmap_None true S k) Hk).
Qed.

Lemma map_has_key_map (ks : list string) (k : string) :
  map_has (key_map ks) k = bool_decide (k ∈ ks).
Proof.
  unfold key_map. rewrite map_has_gset_to_gmap.
  apply bool_decide_ext, elem_of_list_to_set.
Qed.

(** All keys fresh and distinct: the loop runs to its end and adds them all. *)
Lemma keySet_range_distinct (l : list any) (ks : list string) :
  keyed l ks → NoDup ks →
  ∀ S : gset string, (∀ k, k ∈ ks → k ∉ S) →
  keySet_range l (gset_to_gmap true S)
  = (true, gset_to_gmap true (list_to_set ks ∪ S)).
Proof.
  induction 1 as [|x k l ks Hx _ IH]; intros Hnd S Hfresh; simpl.
  - do 2 f_equal. set_solver.
  - apply NoDup_cons in Hnd as [Hk Hnd].
    rewrite Hx, map_has_gset_to_gmap, bool_decide_eq_false_2
      by (apply Hfresh; left).
    rewrite <- gset_to_gmap_union_singleton, IH; [|done|].
    + do 2 f_equal. set_solver.
    + intros k' Hk'. specialize (Hfresh k' ltac:(by right)). set_solver.
Qed.

(** The loop stops at the first element that has no key or whose key
    was seen, with the keys met before it. *)
Lemma keySet_range_stop (pre : list any) (ks : list string) (x : any) (post : list any) :
  keyed pre ks → NoDup ks →
  ∀ S : gset string, (∀ k, k ∈ ks → k ∉ S) →
  (item_key x = None ∨ ∃ k, item_key x = Some k ∧ (k ∈ ks ∨ k ∈ S)) →
  keySet_range (pre ++ x :: post) (gset_to_gmap true S)
  = (false, gset_to_gmap true (list_to_set ks ∪ S)).
Proof.
  induction 1 as [|y k pre ks Hy _ IH]; intros Hnd S Hfresh Hx; simpl.
  - destruct Hx as [->|(k & -> & [Hk|Hk])].
    + do 2 f_equal. set_solver.
    + by apply elem_of_nil in Hk.
    + rewrite map_has_gset_to_gmap, bool_decide_eq_true_2 by done.
      do 2 f_equal. set_solver.
  - apply NoDup_cons in Hnd as [Hk Hnd].
    rewrite Hy, map_has_gset_to_gmap, bool_decide_eq_false_2
      by (apply Hfresh; left).
    rewrite <- gset_to_gmap_union_singleton, IH; [|done| |].
    + do 2 f_equal. set_solver.
    + intros k' Hk'. specialize (Hfresh k' ltac:(by right)). set_solver.
    + destruct Hx as [->|(k' & -> & Hk')]; [by left|right].
      exists k'. split; [done|]. set_solver.
Qed.

(** A list with a repeated entry splits at its first repetition. *)
Lemma first_duplicate (ks : list string) :
  ¬ NoDup ks →
  ∃ pre k post, ks = pre ++ k :: post ∧ NoDup pre ∧ k ∈ pre.
Proof.
  induction ks as [|a ks IH] using rev_ind; intros Hdup.
  - destruct Hdup. constructor.
  - destruct (decide (NoDup ks)) as [Hnd|Hnd].
    + exists ks, a, []. repeat split; [done|].
      destruct (decide (a ∈ ks)) as [|Hin]; [done|].
      destruct Hdup. apply NoDup_app. repeat split; [done| |apply NoDup_singleton].
      intros x Hx Hxa. apply list_elem_of_singleton in Hxa. by subst.
    + destruct (IH Hnd) as (pre & k & post & -> & Hpre & Hk).
      exists pre, k, (post ++ [a]). by rewrite <- app_assoc.
Qed.

Lemma keySet_distinct (l : list any) (ks : list string) :
  keyed l ks → NoDup ks → keySet (AnySlice l) = (true, key_map ks).
Proof.
  intros Hl Hnd. unfold keySet, key_map; simpl.
  rewrite <- gset_to_gmap_empty with (x := true).
  rewrite (keySet_range_distinct l ks Hl Hnd ∅) by set_solver.
  do 2 f_equal. set_solver.
Qed.

Lemma keySet_stop (pre : list any) (ks : list string) (x : any) (post : list any) :
  keyed pre ks → NoDup ks →
  (item_key x = None ∨ ∃ k, item_key x = Some k ∧ k ∈ ks) →
  keySet (AnySlice (pre ++ x :: post)) = (false, key_map ks).
Proof.
  intros Hl Hnd Hx. unfold keySet, key_map; simpl.
  rewrite <- gset_to_gmap_empty with (x := true).
  rewrite (keySet_range_stop pre ks x post Hl Hnd ∅); [|set_solver|].
  - do 2 f_equal. set_solver.
  - destruct Hx as [|(k & ? & ?)]; [by left|right; eauto].
Qed.

Lemma keySet_duplicate (l : list any) (ks : list string) :
  keyed l ks → ¬ NoDup ks →
  ∃ pre k post, ks = pre ++ k :: post ∧ NoDup pre ∧ k ∈ pre ∧
                keySet (AnySlice l) = (false, key_map pre).
Proof.
  intros Hl Hdup.
  destruct (first_duplicate ks Hdup) as (pre & k & post & -> & Hpre & Hk).
  exists pre, k, post. repeat split; try done.
  apply Forall2_app_inv_r in Hl as (lpre & lrest & Hlpre & Hlrest & ->).
  apply Forall2_cons_inv_r in Hlrest as (x & lpost & Hx & _ & ->).
  apply keySet_stop; eauto.
Qed.

Lemma keyed_Volumes (vols : list UserVolume) :
  keyed (AnyVolume <$> vols) (vol_Name <$> vols).
Proof. induction vols; constructor; done. Qed.

Lemma keyed_Files (files : list UserFile) :
  keyed (AnyFile <$> files) (file_Name <$> files).
Proof. induction files; constructor; done. Qed.

Lemma keyed_VolumeReferences (vs : list UserVolumeReference) :
  keyed (AnyVolumeReference <$> vs) (vref_Volume <$> vs).
Proof. induction vs; constructor; done. Qed.

Lemma keyed_EnvironmentVars (es : list UserEnvironmentVar) :
  keyed (AnyEnvironmentVar <$> es) (env_Env <$> es).
Proof. induction es; constructor; done. Qed.



Lemma key_map_nonempty (k : string) (ks : list string) : key_map (k :: ks) ≠ ∅.
Proof.
  intros Heq. apply (f_equal (λ m, map_has m k)) in Heq.
  rewrite map_has_key_map, bool_decide_eq_true_2 in Heq by left.
  discriminate Heq.
Qed.






(** ** [Validate]: the loops, one iteration at a time *)

Arguments Sprintf : simpl never.
Arguments Errorf : simpl never.
Arguments re_Match : simpl never.
Arguments keySet : simpl never.

Lemma Validate_range_Files_cons fset idx f rest σ :
  Validate_range_Files fset idx (f :: rest) σ =
  if map_has fset (fref_Filename f) then
    if perm_check (fref_Perm f) then Validate_range_Files fset idx rest σ
    else (inl perm_error, σ)
  else (inl (file_error idx (fref_Filename f)), σ).
Proof.
  cbn [Validate_range_Files]. unfold vm_bind, return_if, vm_return, vm_ret.
  destruct (map_has fset (fref_Filename f)); [|reflexivity].
  unfold perm_check. cbn [negb].
  destruct (String.eqb (fref_Perm f) EmptyString); cbn [set_fref_Perm fref_Perm].
  - reflexivity.
  - destruct (String.eqb (fref_Perm f) "0"); [reflexivity|].
    destruct (re_Match permReg (fref_Perm f)); reflexivity.
Qed.

Lemma Validate_range_Volumes_cons vset idx v rest σ :
  Validate_range_Volumes vset idx (v :: rest) σ =
  if map_has vset (vref_Volume v) then Validate_range_Volumes vset idx rest σ
  else (inl (volume_error idx (vref_Volume v)), σ).
Proof.
  cbn [Validate_range_Volumes]. unfold vm_bind, return_if, vm_return, vm_ret.
  destruct (map_has vset (vref_Volume v)); reflexivity.
Qed.

Lemma Validate_range_Containers_cons vset fset idx c rest σ :
  Validate_range_Containers vset fset idx (c :: rest) σ =
  if fst (keySet (AnySlice (AnyVolumeReference <$> ctr_Volumes c))) then
    if fst (keySet (AnySlice (AnyEnvironmentVar <$> ctr_Envs c))) then
      match Validate_range_Files fset idx (ctr_Files c) σ with
      | (inl e, σ') => (inl e, σ')
      | (inr _, σ') =>
          match Validate_range_Volumes vset idx (ctr_Volumes c) σ' with
          | (inl e, σ'') => (inl e, σ'')
          | (inr _, σ'') => Validate_range_Containers vset fset (S idx) rest σ''
          end
      end
    else (inl (dup_env_error idx), σ)
  else (inl (dup_mount_error idx), σ).
Proof.
  cbn [Validate_range_Containers]. unfold vm_bind, return_if, vm_return, vm_ret.
  destruct (fst (keySet (AnySlice (AnyVolumeReference <$> ctr_Volumes c))));
    [|reflexivity].
  destruct (fst (keySet (AnySlice (AnyEnvironmentVar <$> ctr_Envs c))));
    reflexivity.
Qed.

(** The loops never write through the receiver. *)
Lemma Validate_range_Files_frame fset idx files σ :
  snd (Validate_range_Files fset idx files σ) = σ.
Proof.
  induction files as [|f rest IH]; [reflexivity|].
  rewrite Validate_range_Files_cons.
  destruct (map_has _ _); [|reflexivity].
  destruct (perm_check _); [exact IH|reflexivity].
Qed.

Lemma Validate_range_Volumes_frame vset idx volumes σ :
  snd (Validate_range_Volumes vset idx volumes σ) = σ.
Proof.
  induction volumes as [|v rest IH]; [reflexivity|].
  rewrite Validate_range_Volumes_cons.
  destruct (map_has _ _); [exact IH|reflexivity].
Qed.

Lemma Validate_range_Containers_frame vset fset containers :
  ∀ idx σ, snd (Validate_range_Containers vset fset idx containers σ) = σ.
Proof.
  induction containers as [|c rest IH]; intros idx σ; [reflexivity|].
  rewrite Validate_range_Containers_cons.
  destruct (fst (keySet _)); [|reflexivity].
  destruct (fst (keySet _)); [|reflexivity].
  pose proof (Validate_range_Files_frame fset idx (ctr_Files c) σ) as Hf.
  destruct (Validate_range_Files _ _ _ _) as [[e|[]] σ']; simpl in Hf; subst σ';
    [reflexivity|].
  pose proof (Validate_range_Volumes_frame vset idx (ctr_Volumes c) σ) as Hv.
  destruct (Validate_range_Volumes _ _ _ _) as [[e|[]] σ']; simpl in Hv; subst σ';
    [reflexivity|].
  apply IH.
Qed.

Lemma Validate_body_frame σ : snd (Validate_body σ) = σ.
Proof.
  unfold Validate_body, vm_bind, vm_read, return_if, vm_return, vm_ret.
  destruct (keySet (AnySlice (AnyVolume <$> pod_Volumes σ))) as [uniqv vset].
  destruct (negb uniqv && (0 <? size vset)%nat); [reflexivity|].
  destruct (keySet (AnySlice (AnyFile <$> pod_Files σ))) as [uniqf fset].
  destruct (negb uniqf && (0 <? size fset)%nat); [reflexivity|].
  pose proof (Validate_range_Containers_frame vset fset (pod_Containers σ) 0%nat σ) as Hc.
  destruct (Validate_range_Containers _ _ _ _ _) as [[e|[]] σ']; simpl in Hc; subst σ';
    reflexivity.
Qed.

(** C4: [Validate] leaves the record it is called on unchanged, on
    success and on every error; the [0755] default goes to the loop's
    copy of the file mount only. *)
Theorem C4_Validate_preserves_record (pod : UserPod) :
  snd (Validate_exec pod) = pod.
Proof.
  unfold Validate_exec.
  pose proof (Validate_body_frame pod) as H.
  destruct (Validate_body pod) as [[e|[]] pod']; exact H.
Qed.

(** ** [Validate]: outcome of the reference checks *)

(** The file loop of one container: it runs through, every reference
    resolving and every permission passing, or it returns an error. *)
Lemma Validate_range_Files_outcome fnames idx files σ :
  (Forall (λ f, fref_Filename f ∈ fnames) files ∧
   Forall (λ f, perm_check (fref_Perm f) = true) files ∧
   Validate_range_Files (key_map fnames) idx files σ = (inr (), σ)) ∨
  (∃ msg, Validate_range_Files (key_map fnames) idx files σ = (inl (Some msg), σ)).
Proof.
  induction files as [|f rest IH]; [left; by repeat split|].
  rewrite Validate_range_Files_cons, map_has_key_map.
  case_bool_decide as Hf; [|right; eexists; reflexivity].
  destruct (perm_check (fref_Perm f)) eqn:Hp; [|right; eexists; reflexivity].
  destruct IH as [(Hr & Hps & ->)|[msg ->]]; [left|right; eauto].
  repeat split; by constructor.
Qed.

(** With passing permissions the only error is the dangling file. *)
Lemma Validate_range_Files_cases fnames idx files σ :
  Forall (λ f, perm_check (fref_Perm f) = true) files →
  (Forall (λ f, fref_Filename f ∈ fnames) files ∧
   Validate_range_Files (key_map fnames) idx files σ = (inr (), σ)) ∨
  (∃ name, name ∈ (fref_Filename <$> files) ∧ (name ∉ fnames) ∧
     Validate_range_Files (key_map fnames) idx files σ
     = (inl (file_error idx name), σ)).
Proof.
  induction 1 as [|f rest Hp _ IH]; [left; by split|].
  rewrite Validate_range_Files_cons, map_has_key_map, Hp.
  case_bool_decide as Hf.
  - destruct IH as [(Hr & ->)|(name & Hin & Hout & ->)].
    + left. split; by constructor.
    + right. exists name. repeat split; [right; done|done].
  - right. exists (fref_Filename f). repeat split; [left|done].
Qed.

Lemma Validate_range_Volumes_cases vnames idx volumes σ :
  (Forall (λ v, vref_Volume v ∈ vnames) volumes ∧
   Validate_range_Volumes (key_map vnames) idx volumes σ = (inr (), σ)) ∨
  (∃ name, name ∈ (vref_Volume <$> volumes) ∧ (name ∉ vnames) ∧
     Validate_range_Volumes (key_map vnames) idx volumes σ
     = (inl (volume_error idx name), σ)).
Proof.
  induction volumes as [|v rest IH]; [left; by split|].
  rewrite Validate_range_Volumes_cons, map_has_key_map.
  case_bool_decide as Hv.
  - destruct IH as [(Hr & ->)|(name & Hin & Hout & ->)].
    + left. split; by constructor.
    + right. exists name. repeat split; [right; done|done].
  - right. exists (vref_Volume v). repeat split; [left|done].
Qed.

Lemma mounts_unique_keySet (c : UserContainer) :
  mounts_unique c →
  fst (keySet (AnySlice (AnyVolumeReference <$> ctr_Volumes c))) = true ∧
  fst (keySet (AnySlice (AnyEnvironmentVar <$> ctr_Envs c))) = true.
Proof.
  intros [Hv He]. split.
  - by rewrite (keySet_distinct _ _ (keyed_VolumeReferences _) Hv).
  - by rewrite (keySet_distinct _ _ (keyed_EnvironmentVars _) He).
Qed.

(** The container loop under the uniqueness preconditions: it runs
    through with every reference resolving and every permission passing,
    or it returns an error. *)
Lemma Validate_range_Containers_outcome vnames fnames containers :
  Forall mounts_unique containers →
  ∀ idx σ,
  (Forall (files_resolve fnames) containers ∧
   Forall (volumes_resolve vnames) containers ∧
   Forall files_perms_pass containers ∧
   Validate_range_Containers (key_map vnames) (key_map fnames) idx containers σ
   = (inr (), σ)) ∨
  (∃ msg, Validate_range_Containers (key_map vnames) (key_map fnames) idx containers σ
          = (inl (Some msg), σ)).
Proof.
  induction 1 as [|c rest Hc _ IH]; intros idx σ; [left; by repeat split|].
  rewrite Validate_range_Containers_cons.
  destruct (mounts_unique_keySet c Hc) as [-> ->].
  destruct (Validate_range_Files_outcome fnames idx (ctr_Files c) σ)
    as [(Hf & Hp & ->)|[msg ->]]; [|right; eauto].
  destruct (Validate_range_Volumes_cases vnames idx (ctr_Volumes c) σ)
    as [(Hv & ->)|(name & _ & _ & ->)]; [|right; eexists; reflexivity].
  destruct (IH (S idx) σ) as [(Hfs & Hvs & Hps & ->)|[msg ->]]; [left|right; eauto].
  repeat split; by constructor.
Qed.

(** With passing permissions the only errors are dangling references,
    reported with the position of their container (counted from the
    index the loop was entered at) and the missing name. *)
Lemma Validate_range_Containers_cases vnames fnames containers :
  Forall mounts_unique containers →
  Forall files_perms_pass containers →
  ∀ idx σ,
  (Forall (files_resolve fnames) containers ∧
   Forall (volumes_resolve vnames) containers ∧
   Validate_range_Containers (key_map vnames) (key_map fnames) idx containers σ
   = (inr (), σ)) ∨
  (∃ j c name, containers !! j = Some c ∧
     ((name ∈ (fref_Filename <$> ctr_Files c) ∧ (name ∉ fnames) ∧
       Validate_range_Containers (key_map vnames) (key_map fnames) idx containers σ
       = (inl (file_error (idx + j) name), σ)) ∨
      (name ∈ (vref_Volume <$> ctr_Volumes c) ∧ (name ∉ vnames) ∧
       Validate_range_Containers (key_map vnames) (key_map fnames) idx containers σ
       = (inl (volume_error (idx + j) name), σ)))).
Proof.
  induction 1 as [|c rest Hc _ IH]; intros Hperm idx σ; [left; by repeat split|].
  apply Forall_cons in Hperm as [Hp Hperm].
  rewrite Validate_range_Containers_cons.
  destruct (mounts_unique_keySet c Hc) as [-> ->].
  destruct (Validate_range_Files_cases fnames idx (ctr_Files c) σ Hp)
    as [(Hf & ->)|(name & Hin & Hout & ->)].
  2:{ right. exists 0%nat, c, name. split; [done|left].
      by rewrite Nat.add_0_r. }
  destruct (Validate_range_Volumes_cases vnames idx (ctr_Volumes c) σ)
    as [(Hv & ->)|(name & Hin & Hout & ->)].
  2:{ right. exists 0%nat, c, name. split; [done|right].
      by rewrite Nat.add_0_r. }
  destruct (IH Hperm (S idx) σ)
    as [(Hfs & Hvs & ->)|(j & c' & name & Hj & Hcase)].
  - left. repeat split; by constructor.
  - right. exists (S j), c', name. split; [done|].
    by replace (idx + S j)%nat with (S idx + j)%nat by lia.
Qed.

Lemma Validate_catalogs_unique (pod : UserPod) :
  catalogs_unique pod →
  Validate pod =
  match fst (Validate_range_Containers (key_map (vol_Name <$> pod_Volumes pod))
               (key_map (file_Name <$> pod_Files pod)) 0 (pod_Containers pod) pod) with
  | inl e => e
  | inr _ => None
  end.
Proof.
  intros [Hv Hf].
  unfold Validate, Validate_exec, Validate_body, vm_bind, vm_read, return_if,
    vm_return, vm_ret.
  rewrite (keySet_distinct _ _ (keyed_Volumes _) Hv). cbn [negb andb].
  rewrite (keySet_distinct _ _ (keyed_Files _) Hf). cbn [negb andb].
  by destruct (Validate_range_Containers _ _ _ _ _) as [[e|[]] σ'].
Qed.

Lemma resolve_not_dangling (pod : UserPod) :
  Forall (files_resolve (file_Name <$> pod_Files pod)) (pod_Containers pod) →
  Forall (volumes_resolve (vol_Name <$> pod_Volumes pod)) (pod_Containers pod) →
  ¬ dangling pod.
Proof.
  intros Hf Hv (idx & name & [(c & Hc & Hin & Hout)|(c & Hc & Hin & Hout)]).
  - apply (Forall_lookup_1 _ _ _ _ Hf) in Hc.
    apply list_elem_of_fmap in Hin as (f & -> & Hin).
    apply Hout. unfold files_resolve in Hc. rewrite Forall_forall in Hc. by apply Hc.
  - apply (Forall_lookup_1 _ _ _ _ Hv) in Hc.
    apply list_elem_of_fmap in Hin as (v & -> & Hin).
    apply Hout. unfold volumes_resolve in Hc. rewrite Forall_forall in Hc. by apply Hc.
Qed.

Lemma pod_perm_before_dangling_Validate :
  Validate pod_perm_before_dangling = perm_error.
Proof. vm_compute. reflexivity. Qed.

(** C3, the claim as stated, at [pod_perm_before_dangling]: the pod
    passes the uniqueness checks and has a dangling file reference, but
    the error [Validate] returns is the one of the permission check met
    first, and names neither the container index nor the missing file. *)
Lemma C3_perm_before_dangling_counterexample :
  ¬ (catalogs_unique pod_perm_before_dangling →
     containers_unique pod_perm_before_dangling →
     dangling pod_perm_before_dangling →
     reports_dangling pod_perm_before_dangling).
Proof.
  intros H.
  destruct H as (idx & name & [(Hd & Hv)|(Hd & Hv)]).
  - split; apply (bool_decide_unpack _); vm_compute; reflexivity.
  - repeat constructor.
  - exists 0%nat, "missing". left. exists (mkContainer "busybox"
       [mkFileReference "a" "755"; mkFileReference "missing" "0755"]).
    split; [reflexivity|]. split; apply (bool_decide_unpack _); vm_compute; reflexivity.
  - destruct Hd as (c & Hc & Hin & Hout).
    destruct idx as [|idx]; [|discriminate Hc].
    injection Hc as <-. cbn in Hin.
    apply elem_of_cons in Hin as [->|Hin].
    + apply Hout. cbn. left.
    + apply list_elem_of_singleton in Hin as ->.
      rewrite pod_perm_before_dangling_Validate in Hv. vm_compute in Hv.
      discriminate Hv.
  - destruct Hd as (c & Hc & Hin & Hout).
    destruct idx as [|idx]; [|discriminate Hc].
    injection Hc as <-. cbn in Hin. by apply elem_of_nil in Hin.
Qed.

(** The text of the errors of the reference checks: container index
    in decimal, then the missing name. *)
Lemma file_error_text (idx : nat) (name : string) :
  file_error idx name =
  Some ("in container " +:+ itoa (Z.of_nat idx) +:+ ", file " +:+ name
        +:+ " does not exist in file list.").
Proof. reflexivity. Qed.

Lemma volume_error_text (idx : nat) (name : string) :
  volume_error idx name =
  Some ("in container " +:+ itoa (Z.of_nat idx) +:+ ", volume " +:+ name
        +:+ " does not exist in volume list.").
Proof. reflexivity. Qed.

Lemma dup_mount_error_text (idx : nat) :
  dup_mount_error idx =
  Some ("in container " +:+ itoa (Z.of_nat idx) +:+ ", volume source are not unique").
Proof. reflexivity. Qed.

Lemma dup_env_error_text (idx : nat) :
  dup_env_error idx =
  Some ("in container " +:+ itoa (Z.of_nat idx) +:+ ", environment name are not unique").
Proof. reflexivity. Qed.

(** The error of the permission check is built without operands: its
    text holds the diagnostics of [fmt] where index and value belong. *)
Lemma perm_error_text :
  perm_error =
  Some "in container %!d(MISSING), the permission %!s(MISSING) only accept Octal digital in string".
Proof. reflexivity. Qed.

(** ** The permission check *)

Lemma pod_with_perm_Validate (perm : string) :
  Validate (pod_with_perm perm) = if perm_check perm then None else perm_error.
Proof.
  rewrite Validate_catalogs_unique
    by (split; apply (bool_decide_unpack _); vm_compute; reflexivity).
  cbn [pod_with_perm mkPod pod_Containers pod_Files pod_Volumes].
  rewrite Validate_range_Containers_cons.
  destruct (mounts_unique_keySet (mkContainer "busybox" [mkFileReference "a" perm]))
    as [-> ->]; [repeat constructor|].
  cbn [mkContainer ctr_Files ctr_Volumes].
  rewrite Validate_range_Files_cons, map_has_key_map.
  cbn [mkFileReference fref_Filename fref_Perm].
  rewrite bool_decide_eq_true_2 by (cbn; left).
  by destruct (perm_check perm).
Qed.

Lemma re_match_here_permReg (s : string) :
  re_match_here permReg s =
  match s with
  | String z (String a (String b (String c _))) =>
      (z =? "0")%char && is_octal_digit a && is_octal_digit b && is_octal_digit c
  | _ => false
  end.
Proof.
  unfold re_match_here, permReg, is_octal_digit.
  destruct s as [|z [|a [|b [|c rest]]]]; cbn -[Ascii.eqb N.leb N_of_ascii];
    rewrite ?(Ascii.eqb_sym z);
    repeat (match goal with
            | |- context [Ascii.eqb ?x ?y] =>
                destruct (Ascii.eqb x y); cbn -[Ascii.eqb N.leb N_of_ascii]
            | |- context [(?x <=? ?y)%N] =>
                destruct (x <=? y)%N; cbn -[Ascii.eqb N.leb N_of_ascii]
            end); reflexivity.
Qed.

Lemma re_Match_unfold (r : Regexp) (s : string) :
  re_Match r s =
  re_match_here r s ||
  match s with
  | EmptyString => false
  | String _ t => re_Match r t
  end.
Proof. by destruct s. Qed.

(** What the check accepts: the pattern anywhere inside the string. *)
Lemma re_Match_permReg_substring (s : string) :
  re_Match permReg s = true ↔
  ∃ pre core post, s = pre +:+ core +:+ post ∧ octal_perm core = true.
Proof.
  split.
  - induction s as [|x t IH]; rewrite re_Match_unfold, re_match_here_permReg;
      [discriminate|].
    intros [Hhere|Hlater]%orb_true_iff.
    + destruct t as [|a [|b [|c rest]]]; try discriminate Hhere.
      exists EmptyString, (String x (String a (String b (String c EmptyString)))), rest.
      by split.
    + destruct (IH Hlater) as (pre & core & post & -> & Hcore).
      by exists (String x pre), core, post.
  - intros (pre & core & post & -> & Hcore).
    induction pre as [|x pre IH]; rewrite re_Match_unfold.
    + destruct core as [|z [|a [|b [|c [|]]]]]; try discriminate Hcore.
      apply orb_true_iff. left. by rewrite re_match_here_permReg.
    + apply orb_true_iff. by right.
Qed.

(** Every string of the specified shape passes the check. *)
Lemma octal_perm_passes (s : string) :
  octal_perm s = true → perm_check s = true.
Proof.
  intros Hs. unfold perm_check.
  destruct s as [|z [|a [|b [|c [|]]]]]; try discriminate Hs.
  rewrite re_Match_unfold, re_match_here_permReg.
  change (String.eqb (String z (String a (String b (String c EmptyString)))) EmptyString)
    with false.
  cbv beta iota zeta. unfold octal_perm in Hs. rewrite Hs. cbn [orb].
  apply orb_true_r.
Qed.

(** C1: the four permission strings of the claim behave as it says,
    but the pattern is searched for anywhere in the string, so
    [Validate] also accepts [07558] and [x0755], which are not a leading
    zero followed by exactly three octal digits. *)
Theorem C1_perm_pattern_not_anchored :
  (Validate (pod_with_perm "0755") = None ∧
   Validate (pod_with_perm "755") = perm_error ∧
   Validate (pod_with_perm "0") = None ∧
   Validate (pod_with_perm "0999") = perm_error) ∧
  (octal_perm "07558" = false ∧ Validate (pod_with_perm "07558") = None) ∧
  (octal_perm "x0755" = false ∧ Validate (pod_with_perm "x0755") = None).
Proof.
  rewrite !pod_with_perm_Validate. repeat split; reflexivity.
Qed.

(** ** The error of the permission check *)

Lemma Validate_range_Containers_bad_perm vset fset perm σ (n : nat) :
  perm_check perm = false →
  map_has fset "a" = true →
  ∀ idx,
  Validate_range_Containers vset fset idx
    (replicate n (mkContainer "busybox" [])
     ++ [mkContainer "busybox" [mkFileReference "a" perm]]) σ
  = (inl perm_error, σ).
Proof.
  intros Hperm Ha. induction n as [|n IH]; intros idx.
  - cbn [replicate app]. rewrite Validate_range_Containers_cons.
    destruct (mounts_unique_keySet (mkContainer "busybox" [mkFileReference "a" perm]))
      as [-> ->]; [repeat constructor|].
    cbn [mkContainer ctr_Files ctr_Volumes].
    rewrite Validate_range_Files_cons.
    cbn [mkFileReference fref_Filename fref_Perm].
    by rewrite Ha, Hperm.
  - cbn [replicate app]. rewrite Validate_range_Containers_cons.
    destruct (mounts_unique_keySet (mkContainer "busybox" []))
      as [-> ->]; [repeat constructor|].
    cbn [mkContainer ctr_Files ctr_Volumes Validate_range_Files Validate_range_Volumes vm_ret].
    apply IH.
Qed.

(** C5: whatever the index [n] of the offending container and whatever
    the offending permission string, the error of the permission check
    is one fixed text, holding neither the index nor the value. *)
Theorem C5_perm_error_lacks_index (n : nat) (perm : string) :
  perm_check perm = false →
  Validate (pod_bad_perm_at n perm) =
  Some "in container %!d(MISSING), the permission %!s(MISSING) only accept Octal digital in string".
Proof.
  intros Hperm.
  rewrite Validate_catalogs_unique
    by (split; apply (bool_decide_unpack _); vm_compute; reflexivity).
  cbn [pod_bad_perm_at mkPod pod_Containers pod_Files pod_Volumes].
  rewrite Validate_range_Containers_bad_perm; [reflexivity|done|].
  rewrite map_has_key_map. apply bool_decide_eq_true_2. cbn. left.
Qed.

Lemma C5_perm_error_lacks_index_witness :
  perm_check "abc" = false ∧
  Validate (pod_bad_perm_at 3 "abc") =
  Some "in container %!d(MISSING), the permission %!s(MISSING) only accept Octal digital in string".
Proof.
  split; [reflexivity|]. apply (C5_perm_error_lacks_index 3 "abc"). reflexivity.
Defined.

(** ** [RandStr] *)

Lemma String_get_lt (s : string) :
  ∀ n, (n < String.length s)%nat →
  ∃ c, String.get n s = Some c ∧ c ∈ list_ascii_of_string s.
Proof.
  induction s as [|a s IH]; intros n Hn; simpl in Hn; [lia|].
  destruct n as [|n]; simpl.
  - exists a. split; [done|left].
  - destruct (IH n ltac:(lia)) as (c & Hc & Hin). exists c. split; [done|by right].
Qed.

Lemma String_length_of_list (l : list ascii) :
  String.length (string_of_list_ascii l) = length l.
Proof. induction l; simpl; congruence. Qed.

Lemma byte_of_len_le (dictionary : string) :
  (byte_of_len dictionary <= N.of_nat (String.length dictionary))%N.
Proof. unfold byte_of_len. apply N.Div0.mod_le. Qed.

(** With a non-empty alphabet of fewer than 256 symbols the loop never
    panics and writes symbols of the alphabet only. *)
Lemma RandStr_range_total (dictionary : string) (bytes : list ascii) :
  byte_of_len dictionary ≠ 0%N →
  ∃ out, RandStr_range dictionary bytes = Some out ∧
         length out = length bytes ∧
         Forall (λ c, c ∈ list_ascii_of_string dictionary) out.
Proof.
  intros Hm. induction bytes as [|v rest IH]; simpl.
  - exists []. by repeat split.
  - destruct (N.eqb_spec (byte_of_len dictionary) 0) as [|_]; [done|].
    destruct (String_get_lt dictionary
                (N.to_nat (N_of_ascii v mod byte_of_len dictionary)))
      as (c & -> & Hc).
    { pose proof (byte_of_len_le dictionary).
      pose proof (N.mod_upper_bound (N_of_ascii v) _ Hm). lia. }
    destruct IH as (out & -> & Hlen & Hall).
    exists (c :: out). repeat split; [simpl; congruence|by constructor].
Qed.

Lemma alphanum_dictionary_is_alphanum :
  Forall (λ c, is_alphanum c = true)
    (list_ascii_of_string "0123456789abcdefghijklmnopqrstuvwxyz").
Proof. repeat constructor. Qed.

Lemma make_panics_false (n : Z) :
  (0 <= n <= make_limit)%Z → make_panics n = false.
Proof.
  intros [H0 Hmax]. unfold make_panics.
  destruct (Z.ltb_spec n 0) as [|_]; [lia|].
  by destruct (Z.ltb_spec make_limit n) as [|_]; [lia|].
Qed.

Lemma make_accepts_10 : (0 <= 10 <= make_limit)%Z.
Proof. unfold make_limit. lia. Qed.

Lemma RandStr_alphanum (strSize : Z) (src : RandSrc) :
  (0 <= strSize <= make_limit)%Z →
  ∃ s, RandStr strSize "alphanum" src
       = Some (s, λ i, src (Z.to_nat strSize + i)%nat) ∧
       String.length s = Z.to_nat strSize ∧
       Forall (λ c, is_alphanum c = true) (list_ascii_of_string s).
Proof.
  intros Hn. unfold RandStr.
  change (String.eqb "alphanum" "alphanum") with true.
  change (String.eqb "alphanum" "alpha") with false.
  change (String.eqb "alphanum" "number") with false.
  cbv beta iota zeta.
  rewrite (make_panics_false strSize Hn).
  unfold rand_Read.
  destruct (RandStr_range_total "0123456789abcdefghijklmnopqrstuvwxyz"
              (src <$> seq 0 (Z.to_nat strSize))) as (out & -> & Hlen & Hall);
    [discriminate|].
  exists (string_of_list_ascii out). split; [reflexivity|]. split.
  - by rewrite String_length_of_list, Hlen, length_fmap, length_seq.
  - rewrite list_ascii_of_string_of_list_ascii.
    pose proof alphanum_dictionary_is_alphanum as Hdict.
    rewrite Forall_forall in Hall, Hdict. rewrite Forall_forall.
    intros c Hc. by apply Hdict, Hall.
Qed.

(** C8: [RandStr(10, "alphanum")] returns, whatever the random bytes, a
    string of exactly 10 characters, each in [[0-9a-z]]. *)
Theorem C8_RandStr_alphanum_10 (src : RandSrc) :
  ∃ s src', RandStr 10 "alphanum" src = Some (s, src') ∧
            String.length s = 10%nat ∧
            Forall (λ c, is_alphanum c = true) (list_ascii_of_string s).
Proof.
  destruct (RandStr_alphanum 10 src make_accepts_10) as (s & Hs & Hlen & Hall).
  by exists s, (λ i, src (Z.to_nat 10 + i)%nat).
Qed.

(** ** [ProcessPodBytes] *)

Section ProcessPodBytes_facts.

Variable json_Unmarshal : string → string + UserPod.

Lemma ProcessPodBytes_decode_error body src err :
  json_Unmarshal body = inl err →
  ProcessPodBytes json_Unmarshal body src = Some ((None, Some err), src).
Proof. intros H. unfold ProcessPodBytes. by rewrite H. Qed.

Lemma ProcessPodBytes_named body src userPod :
  json_Unmarshal body = inr userPod →
  pod_Name userPod ≠ EmptyString →
  ProcessPodBytes json_Unmarshal body src
  = Some (structural_checks (resource_defaults userPod), src).
Proof.
  intros H Hname. unfold ProcessPodBytes. rewrite H.
  destruct (String.eqb_spec (pod_Name userPod) EmptyString) as [|_]; [done|].
  cbn [mbind option_bind].
  unfold structural_checks, resource_defaults, zero_containers_error.
  destruct (ProcessPodBytes_range_Containers _ _) as [e|num]; [done|].
  destruct (num =? 0)%Z; [done|].
  by destruct (ProcessPodBytes_range_Volumes _).
Qed.

Lemma ProcessPodBytes_unnamed body src userPod :
  json_Unmarshal body = inr userPod →
  pod_Name userPod = EmptyString →
  ∃ name src',
    RandStr 10 "alphanum" src = Some (name, src') ∧
    ProcessPodBytes json_Unmarshal body src
    = Some (structural_checks (resource_defaults (set_pod_Name userPod name)), src').
Proof.
  intros H Hname. unfold ProcessPodBytes. rewrite H, Hname.
  change (String.eqb EmptyString EmptyString) with true. cbv iota.
  destruct (RandStr_alphanum 10 src make_accepts_10) as (name & Hrand & _).
  exists name, (λ i, src (Z.to_nat 10 + i)%nat). split; [done|].
  rewrite Hrand. cbn [mbind option_bind].
  unfold structural_checks, resource_defaults, zero_containers_error.
  destruct (ProcessPodBytes_range_Containers _ _) as [e|num]; [done|].
  destruct (num =? 0)%Z; [done|].
  by destruct (ProcessPodBytes_range_Volumes _).
Qed.

(** Either way the record checked is the decoded one up to its name and
    resource defaults. *)
Lemma ProcessPodBytes_decoded body src userPod :
  json_Unmarshal body = inr userPod →
  ∃ name src',
    ProcessPodBytes json_Unmarshal body src
    = Some (structural_checks (resource_defaults (set_pod_Name userPod name)), src').
Proof.
  intros H. destruct (decide (pod_Name userPod = EmptyString)) as [Hname|Hname].
  - destruct (ProcessPodBytes_unnamed body src userPod H Hname)
      as (name & src' & _ & ->). eauto.
  - exists (pod_Name userPod), src.
    rewrite (ProcessPodBytes_named body src userPod H Hname).
    by destruct userPod.
Qed.

End ProcessPodBytes_facts.

Lemma resource_defaults_Containers userPod :
  pod_Containers (resource_defaults userPod) = pod_Containers userPod.
Proof.
  unfold resource_defaults.
  destruct (res_Vcpu _ =? 0)%Z; cbn; by destruct (_ =? 0)%Z.
Qed.

Lemma resource_defaults_Volumes userPod :
  pod_Volumes (resource_defaults userPod) = pod_Volumes userPod.
Proof.
  unfold resource_defaults.
  destruct (res_Vcpu _ =? 0)%Z; cbn; by destruct (_ =? 0)%Z.
Qed.

Lemma ProcessPodBytes_range_Containers_missing_image containers :
  (∃ c, c ∈ containers ∧ ctr_Image c = EmptyString) →
  ∀ num, ProcessPodBytes_range_Containers containers num = inl missing_image_error.
Proof.
  induction containers as [|v rest IH]; intros (c & Hin & Hc) num.
  - by apply elem_of_nil in Hin.
  - simpl. destruct (String.eqb_spec (ctr_Image v) EmptyString) as [|Hv]; [done|].
    apply IH. exists c. split; [|done].
    apply elem_of_cons in Hin as [->|]; done.
Qed.

Lemma ProcessPodBytes_range_Containers_count containers :
  Forall (λ c, ctr_Image c ≠ EmptyString) containers →
  ∀ num, ProcessPodBytes_range_Containers containers num
         = inr (num + Z.of_nat (length containers))%Z.
Proof.
  induction 1 as [|v rest Hv _ IH]; intros num; simpl.
  - f_equal. lia.
  - destruct (String.eqb_spec (ctr_Image v) EmptyString) as [|_]; [done|].
    rewrite IH. f_equal. lia.
Qed.

Lemma ProcessPodBytes_range_Volumes_empty_name volumes :
  (∃ vol, vol ∈ volumes ∧ vol_Name vol = EmptyString) →
  ProcessPodBytes_range_Volumes volumes = Some empty_volume_name_error.
Proof.
  induction volumes as [|v rest IH]; intros (vol & Hin & Hvol).
  - by apply elem_of_nil in Hin.
  - simpl. destruct (String.eqb_spec (vol_Name v) EmptyString) as [|Hv]; [done|].
    apply IH. exists vol. split; [|done].
    apply elem_of_cons in Hin as [->|]; done.
Qed.

(** C2: for a document that decodes, [ProcessPodBytes] returns no
    record and the zero-containers error when the container list is
    empty, whatever the other fields, and no record and the missing-image
    error when some container has an empty image, whatever the other
    containers. *)
Theorem C2_ProcessPodBytes_containers
    (json_Unmarshal : string → string + UserPod) body src userPod :
  json_Unmarshal body = inr userPod →
  (pod_Containers userPod = [] →
   ∃ src', ProcessPodBytes json_Unmarshal body src
           = Some ((None, zero_containers_error), src')) ∧
  ((∃ c, c ∈ pod_Containers userPod ∧ ctr_Image c = EmptyString) →
   ∃ src', ProcessPodBytes json_Unmarshal body src
           = Some ((None, missing_image_error), src')).
Proof.
  intros H.
  destruct (ProcessPodBytes_decoded json_Unmarshal body src userPod H)
    as (name & src' & ->).
  unfold structural_checks. rewrite resource_defaults_Containers.
  cbn [set_pod_Name pod_Containers]. split.
  - intros ->. by exists src'.
  - intros Himg. exists src'.
    by rewrite (ProcessPodBytes_range_Containers_missing_image _ Himg).
Qed.

(** C10: for a document that decodes with at least one container and
    an image in every container, [ProcessPodBytes] still returns no
    record, and the volume-name error, when some top-level volume has an
    empty name. *)
Theorem C10_ProcessPodBytes_volume_name
    (json_Unmarshal : string → string + UserPod) body src userPod :
  json_Unmarshal body = inr userPod →
  pod_Containers userPod ≠ [] →
  Forall (λ c, ctr_Image c ≠ EmptyString) (pod_Containers userPod) →
  (∃ vol, vol ∈ pod_Volumes userPod ∧ vol_Name vol = EmptyString) →
  ∃ src', ProcessPodBytes json_Unmarshal body src
          = Some ((None, empty_volume_name_error), src').
Proof.
  intros H Hne Himg Hvol.
  destruct (ProcessPodBytes_decoded json_Unmarshal body src userPod H)
    as (name & src' & ->).
  exists src'. unfold structural_checks.
  rewrite resource_defaults_Containers, resource_defaults_Volumes.
  cbn [set_pod_Name pod_Containers pod_Volumes].
  rewrite (ProcessPodBytes_range_Containers_count _ Himg).
  destruct (Z.eqb_spec (0 + Z.of_nat (length (pod_Containers userPod))) 0) as [Hz|_].
  - exfalso. destruct (pod_Containers userPod); [congruence|simpl in Hz; lia].
  - by rewrite (ProcessPodBytes_range_Volumes_empty_name _ Hvol).
Qed.

Lemma C2_ProcessPodBytes_containers_witness :
  (∃ src', ProcessPodBytes (decode_as (mkPod "x" [] [mkFile "a"] [mkVolume "data"]))
             "pod.json" counting_source
           = Some ((None, zero_containers_error), src')) ∧
  (∃ src', ProcessPodBytes
             (decode_as (mkPod EmptyString
                           [mkContainer "busybox" []; mkContainer EmptyString []] [] []))
             "pod.json" counting_source
           = Some ((None, missing_image_error), src')).
Proof.
  split.
  - destruct (C2_ProcessPodBytes_containers
                (decode_as (mkPod "x" [] [mkFile "a"] [mkVolume "data"]))
                "pod.json" counting_source _ eq_refl) as [Hzero _].
    exact (Hzero eq_refl).
  - destruct (C2_ProcessPodBytes_containers
                (decode_as (mkPod EmptyString
                              [mkContainer "busybox" []; mkContainer EmptyString []] [] []))
                "pod.json" counting_source _ eq_refl) as [_ Himage].
    apply Himage.
    exists (mkContainer EmptyString []). split; [|reflexivity].
    right. left.
Defined.

Lemma C10_ProcessPodBytes_volume_name_witness :
  ∃ src', ProcessPodBytes
            (decode_as (mkPod "x" [mkContainer "busybox" []] []
                          [mkVolume "data"; mkVolume EmptyString]))
            "pod.json" counting_source
          = Some ((None, empty_volume_name_error), src').
Proof.
  apply (C10_ProcessPodBytes_volume_name
           (decode_as (mkPod "x" [mkContainer "busybox" []] []
                         [mkVolume "data"; mkVolume EmptyString]))
           "pod.json" counting_source _ eq_refl).
  - discriminate.
  - repeat constructor; discriminate.
  - exists (mkVolume EmptyString). split; [|reflexivity]. right. left.
Defined.

(** [Validate] accepts a pod made of one container without mounts and
    empty catalogs. *)
Lemma Validate_single_container name image resource tty type :
  Validate {| pod_Name := name; pod_Containers := [mkContainer image []];
              pod_Resource := resource; pod_Files := []; pod_Volumes := [];
              pod_Tty := tty; pod_Type := type |} = None.
Proof.
  rewrite Validate_catalogs_unique by (split; constructor).
  cbn [pod_Containers pod_Files pod_Volumes].
  rewrite Validate_range_Containers_cons.
  destruct (mounts_unique_keySet (mkContainer image [])) as [-> ->];
    [split; constructor|].
  reflexivity.
Qed.

(** C6: for a document that decodes to one container with a non-empty
    image and nothing else, [ProcessPodBytes] succeeds; the record has
    [vcpu = 1], [memory = 128] and the name [RandStr(10, "alphanum")]
    drew from the random source, 10 characters of [[0-9a-z]]; [Validate]
    succeeds on that record. *)
Theorem C6_minimal_document
    (json_Unmarshal : string → string + UserPod) body src image :
  json_Unmarshal body = inr (minimal_pod image) →
  image ≠ EmptyString →
  ∃ userPod src',
    ProcessPodBytes json_Unmarshal body src = Some ((Some userPod, None), src') ∧
    res_Vcpu (pod_Resource userPod) = 1%Z ∧
    res_Memory (pod_Resource userPod) = 128%Z ∧
    RandStr 10 "alphanum" src = Some (pod_Name userPod, src') ∧
    String.length (pod_Name userPod) = 10%nat ∧
    pod_Name userPod ≠ EmptyString ∧
    Forall (λ c, is_alphanum c = true) (list_ascii_of_string (pod_Name userPod)) ∧
    Validate userPod = None.
Proof.
  intros H Himg.
  destruct (ProcessPodBytes_unnamed json_Unmarshal body src _ H eq_refl)
    as (name & src' & Hrand & ->).
  destruct (RandStr_alphanum 10 src make_accepts_10) as (name' & Hrand' & Hlen & Hall).
  rewrite Hrand in Hrand'. injection Hrand' as <- _.
  unfold structural_checks, resource_defaults.
  cbn [minimal_pod set_pod_Name set_pod_Resource set_res_Vcpu set_res_Memory
       pod_Resource pod_Containers pod_Volumes res_Vcpu res_Memory Z.eqb
       ProcessPodBytes_range_Containers ProcessPodBytes_range_Volumes
       mkContainer ctr_Image].
  destruct (String.eqb_spec image EmptyString) as [|_]; [done|].
  cbn [Z.add Z.eqb Pos.eqb].
  eexists _, src'. split; [reflexivity|]. simpl.
  split; [reflexivity|]. split; [reflexivity|]. split; [exact Hrand|].
  split; [exact Hlen|]. split; [|split; [exact Hall|]].
  - intros ->. discriminate Hlen.
  - apply Validate_single_container.
Qed.

Lemma C6_minimal_document_witness :
  ∃ userPod src',
    ProcessPodBytes decode_minimal minimal_document counting_source
    = Some ((Some userPod, None), src') ∧
    res_Vcpu (pod_Resource userPod) = 1%Z ∧
    res_Memory (pod_Resource userPod) = 128%Z ∧
    RandStr 10 "alphanum" counting_source = Some (pod_Name userPod, src') ∧
    String.length (pod_Name userPod) = 10%nat ∧
    pod_Name userPod ≠ EmptyString ∧
    Forall (λ c, is_alphanum c = true) (list_ascii_of_string (pod_Name userPod)) ∧
    Validate userPod = None.
Proof.
  apply (C6_minimal_document decode_minimal minimal_document counting_source "busybox").
  - reflexivity.
  - discriminate.
Defined.

(** ** Two runs on one buffer *)







(** * Further properties *)

(** ** [keySet]: what a verdict tells about the input *)

Lemma keySet_range_true (l : list any) :
  ∀ (S : gset string) m,
  keySet_range l (gset_to_gmap true S) = (true, m) →
  ∃ ks, keyed l ks ∧ NoDup ks ∧ (∀ k, k ∈ ks → k ∉ S) ∧
        m = gset_to_gmap true (list_to_set ks ∪ S).
Proof.
  induction l as [|x rest IH]; intros S m Hrun; simpl in Hrun.
  - exists []. repeat split; [constructor|constructor|set_solver|].
    injection Hrun as <-. f_equal. set_solver.
  - destruct (item_key x) as [kx|] eqn:Hx; [|discriminate Hrun].
    rewrite map_has_gset_to_gmap in Hrun.
    case_bool_decide as Hkx; [discriminate Hrun|].
    rewrite <- gset_to_gmap_union_singleton in Hrun.
    destruct (IH _ _ Hrun) as (ks & Hks & Hnd & Hfresh & ->).
    exists (kx :: ks). repeat split.
    + by constructor.
    + apply NoDup_cons. split; [|done].
      intros Hin. specialize (Hfresh kx Hin). set_solver.
    + intros k [->|Hk]%elem_of_cons; [done|].
      specialize (Hfresh k Hk). set_solver.
    + f_equal. set_solver.
Qed.

(** X1: [keySet] answers [true] exactly on a slice whose elements all
    have a key and whose keys are pairwise distinct, and the set it
    returns is then the set of all keys. *)
Theorem keySet_true_iff (d : any) (m : gmap string bool) :
  keySet d = (true, m) ↔
  ∃ l ks, d = AnySlice l ∧ keyed l ks ∧ NoDup ks ∧ m = key_map ks.
Proof.
  split.
  - destruct d; try discriminate. unfold keySet; simpl.
    rewrite <- gset_to_gmap_empty with (x := true). intros Hrun.
    destruct (keySet_range_true _ _ _ Hrun) as (ks & Hks & Hnd & _ & ->).
    exists elems, ks. repeat split; [done|done|].
    unfold key_map. f_equal. set_solver.
  - intros (l & ks & -> & Hks & Hnd & ->). by apply keySet_distinct.
Qed.

Lemma keySet_true_iff_witness :
  keySet (AnySlice [AnyVolume (mkVolume "a"); AnyFile (mkFile "b")])
  = (true, key_map ["a"; "b"]).
Proof.
  apply keySet_true_iff.
  exists [AnyVolume (mkVolume "a"); AnyFile (mkFile "b")], ["a"; "b"].
  split; [reflexivity|]. split; [repeat constructor|]. split; [|reflexivity].
  apply (bool_decide_unpack _). vm_compute. reflexivity.
Defined.

Lemma size_key_map (ks : list string) : NoDup ks → size (key_map ks) = length ks.
Proof.
  intros Hnd. unfold key_map.
  rewrite <- (size_dom (D := gset string)), dom_gset_to_gmap.
  by apply size_list_to_set.
Qed.

(** X2: when [keySet] answers [true] on a slice, the set it returns has
    exactly as many keys as the slice has elements. *)
Theorem keySet_true_size (l : list any) (m : gmap string bool) :
  keySet (AnySlice l) = (true, m) → size m = length l.
Proof.
  intros (l' & ks & Heq & Hks & Hnd & ->)%keySet_true_iff.
  injection Heq as <-.
  rewrite (size_key_map ks Hnd). symmetry. by eapply Forall2_length.
Qed.

Lemma keySet_true_size_witness :
  size (key_map ["a"; "b"]) = 2%nat.
Proof.
  apply (keySet_true_size [AnyVolume (mkVolume "a"); AnyFile (mkFile "b")]).
  apply keySet_distinct; [repeat constructor|].
  apply (bool_decide_unpack _). vm_compute. reflexivity.
Defined.

Lemma keySet_range_keys (l : list any) :
  ∀ (S : gset string) b m,
  keySet_range l (gset_to_gmap true S) = (b, m) →
  ∃ S' : gset string, m = gset_to_gmap true S' ∧
    ∀ k, k ∈ S' → k ∈ S ∨ ∃ x, x ∈ l ∧ item_key x = Some k.
Proof.
  induction l as [|x rest IH]; intros S b m Hrun; simpl in Hrun.
  - injection Hrun as _ <-. exists S. split; [done|]. by left.
  - destruct (item_key x) as [kx|] eqn:Hx.
    2:{ injection Hrun as _ <-. exists S. split; [done|]. by left. }
    destruct (map_has _ kx).
    { injection Hrun as _ <-. exists S. split; [done|]. by left. }
    rewrite <- gset_to_gmap_union_singleton in Hrun.
    destruct (IH _ _ _ Hrun) as (S' & -> & Hsub).
    exists S'. split; [done|]. intros k Hk.
    destruct (Hsub k Hk) as [[Hkx|HS]%elem_of_union|(y & Hy & Hyk)].
    + apply elem_of_singleton in Hkx as ->. right. exists x. split; [left|done].
    + by left.
    + right. exists y. split; [by right|done].
Qed.

(** X3: whatever [keySet] answers, the map it returns binds only keys
    of elements of the input slice, each of them to [true]. *)
Theorem keySet_keys_of_input (d : any) (b : bool) (m : gmap string bool)
    (k : string) (v : bool) :
  keySet d = (b, m) → m !! k = Some v →
  v = true ∧ ∃ l x, d = AnySlice l ∧ x ∈ l ∧ item_key x = Some k.
Proof.
  intros Hrun Hk. destruct d;
    try (injection Hrun as _ <-; by rewrite lookup_empty in Hk).
  unfold keySet in Hrun; simpl in Hrun.
  rewrite <- gset_to_gmap_empty with (x := true) in Hrun.
  destruct (keySet_range_keys _ _ _ _ Hrun) as (S' & -> & Hsub).
  apply lookup_gset_to_gmap_Some in Hk as [Hk <-]. split; [done|].
  destruct (Hsub k Hk) as [Hin|(x & Hx & Hxk)]; [set_solver|].
  by exists elems, x.
Qed.

Lemma keySet_keys_of_input_witness :
  true = true ∧
  ∃ l x, mixed_slice = AnySlice l ∧ x ∈ l ∧ item_key x = Some "a".
Proof.
  apply (keySet_keys_of_input mixed_slice false (key_map ["a"]) "a" true).
  - apply (keySet_stop [AnyVolume (mkVolume "a")] ["a"] (AnyInt 42) []);
      [repeat constructor|apply NoDup_singleton|by left].
  - vm_compute. reflexivity.
Defined.

Lemma keySet_duplicate_nonempty (l : list any) (ks : list string) :
  keyed l ks → ¬ NoDup ks →
  ∃ m, keySet (AnySlice l) = (false, m) ∧ (0 <? size m)%nat = true.
Proof.
  intros Hl Hdup.
  destruct (keySet_duplicate l ks Hl Hdup) as (pre & k & post & _ & _ & Hk & ->).
  exists (key_map pre). split; [done|].
  apply Nat.ltb_lt. apply Nat.neq_0_lt_0, map_size_non_empty_iff.
  destruct pre as [|k' pre]; [by apply elem_of_nil in Hk|].
  apply key_map_nonempty.
Qed.

(** ** [Validate]: which pods pass, and which error comes first *)

Lemma Validate_range_Files_total fnames idx files σ :
  (Forall (file_mount_ok fnames) files ∧
   Validate_range_Files (key_map fnames) idx files σ = (inr (), σ)) ∨
  (¬ Forall (file_mount_ok fnames) files ∧
   ∃ msg, Validate_range_Files (key_map fnames) idx files σ = (inl (Some msg), σ)).
Proof.
  induction files as [|f rest IH]; [left; by split|].
  rewrite Validate_range_Files_cons, map_has_key_map.
  case_bool_decide as Hf.
  2:{ right. split; [|eexists; reflexivity].
      intros [[? _] _]%Forall_cons. done. }
  destruct (perm_check (fref_Perm f)) eqn:Hp.
  2:{ right. split; [|eexists; reflexivity].
      intros [[_ Hp'] _]%Forall_cons. congruence. }
  destruct IH as [(Hok & ->)|(Hbad & msg & ->)].
  - left. split; [|done]. by constructor.
  - right. split; [|by exists msg]. intros [_ ?]%Forall_cons. done.
Qed.

Lemma Validate_range_Volumes_total vnames idx volumes σ :
  (Forall (λ v, vref_Volume v ∈ vnames) volumes ∧
   Validate_range_Volumes (key_map vnames) idx volumes σ = (inr (), σ)) ∨
  (¬ Forall (λ v, vref_Volume v ∈ vnames) volumes ∧
   ∃ msg, Validate_range_Volumes (key_map vnames) idx volumes σ = (inl (Some msg), σ)).
Proof.
  destruct (Validate_range_Volumes_cases vnames idx volumes σ)
    as [(Hok & ->)|(name & Hin & Hout & ->)]; [left; by split|right].
  split; [|eexists; reflexivity].
  intros Hall. apply list_elem_of_fmap in Hin as (v & -> & Hv).
  rewrite Forall_forall in Hall. by apply Hout, Hall.
Qed.

Lemma keySet_not_unique (l : list any) (ks : list string) :
  keyed l ks → ¬ NoDup ks → fst (keySet (AnySlice l)) = false.
Proof.
  intros Hl Hdup.
  by destruct (keySet_duplicate l ks Hl Hdup) as (? & ? & ? & _ & _ & _ & ->).
Qed.

(** The container loop on arbitrary containers: it runs through exactly
    when every container passes every check, and returns an error
    otherwise. *)
Lemma Validate_range_Containers_total vnames fnames containers :
  ∀ idx σ,
  (Forall (container_ok vnames fnames) containers ∧
   Validate_range_Containers (key_map vnames) (key_map fnames) idx containers σ
   = (inr (), σ)) ∨
  (¬ Forall (container_ok vnames fnames) containers ∧
   ∃ msg, Validate_range_Containers (key_map vnames) (key_map fnames) idx containers σ
          = (inl (Some msg), σ)).
Proof.
  induction containers as [|c rest IH]; intros idx σ; [left; by split|].
  rewrite Validate_range_Containers_cons.
  destruct (decide (NoDup (vref_Volume <$> ctr_Volumes c))) as [Hv|Hv].
  2:{ rewrite (keySet_not_unique _ _ (keyed_VolumeReferences _) Hv).
      right. split; [|eexists; reflexivity].
      intros [[[? _] _] _]%Forall_cons. done. }
  destruct (decide (NoDup (env_Env <$> ctr_Envs c))) as [He|He].
  2:{ rewrite (keySet_distinct _ _ (keyed_VolumeReferences _) Hv).
      rewrite (keySet_not_unique _ _ (keyed_EnvironmentVars _) He).
      right. split; [|eexists; reflexivity].
      intros [[[_ ?] _] _]%Forall_cons. done. }
  destruct (mounts_unique_keySet c (conj Hv He)) as [-> ->].
  destruct (Validate_range_Files_total fnames idx (ctr_Files c) σ)
    as [(Hf & ->)|(Hf & msg & ->)].
  2:{ right. split; [|by exists msg].
      intros [(_ & ? & _) _]%Forall_cons. done. }
  destruct (Validate_range_Volumes_total vnames idx (ctr_Volumes c) σ)
    as [(Hvol & ->)|(Hvol & msg & ->)].
  2:{ right. split; [|by exists msg].
      intros [(_ & _ & ?) _]%Forall_cons. done. }
  destruct (IH (S idx) σ) as [(Hrest & ->)|(Hrest & msg & ->)].
  - left. split; [|done]. constructor; [|done]. by repeat split.
  - right. split; [|by exists msg]. intros [_ ?]%Forall_cons. done.
Qed.

Lemma Validate_duplicate_volumes (pod : UserPod) :
  ¬ NoDup (volume_names pod) →
  Validate pod = Some "Volumes name does not unique".
Proof.
  intros Hdup.
  destruct (keySet_duplicate_nonempty _ _ (keyed_Volumes (pod_Volumes pod)) Hdup)
    as (m & Hm & Hsize).
  unfold Validate, Validate_exec, Validate_body, vm_bind, vm_read, return_if,
    vm_return, vm_ret.
  by rewrite Hm, Hsize.
Qed.

Lemma Validate_duplicate_files (pod : UserPod) :
  NoDup (volume_names pod) → ¬ NoDup (file_names pod) →
  Validate pod = Some "Files name does not unique".
Proof.
  intros Hv Hdup.
  destruct (keySet_duplicate_nonempty _ _ (keyed_Files (pod_Files pod)) Hdup)
    as (m & Hm & Hsize).
  unfold Validate, Validate_exec, Validate_body, vm_bind, vm_read, return_if,
    vm_return, vm_ret.
  rewrite (keySet_distinct _ _ (keyed_Volumes _) Hv). cbn [negb andb].
  by rewrite Hm, Hsize.
Qed.

(** X4: [Validate] returns the duplicate-volume error on every pod
    whose volume catalog repeats a name, whatever else the pod holds; with
    distinct volume names and a repeated file name it returns the
    duplicate-file error. *)
Theorem Validate_duplicate_catalog_names (pod : UserPod) :
  (¬ NoDup (volume_names pod) →
   Validate pod = Some "Volumes name does not unique") ∧
  (NoDup (volume_names pod) → ¬ NoDup (file_names pod) →
   Validate pod = Some "Files name does not unique").
Proof.
  split; [apply Validate_duplicate_volumes|apply Validate_duplicate_files].
Qed.

Lemma Validate_duplicate_catalog_names_witness :
  Validate (mkPod "p" [] [mkFile "f"; mkFile "f"] [mkVolume "a"; mkVolume "a"])
  = Some "Volumes name does not unique" ∧
  Validate (mkPod "p" [] [mkFile "f"; mkFile "f"] [mkVolume "a"; mkVolume "b"])
  = Some "Files name does not unique".
Proof.
  split.
  - apply (Validate_duplicate_catalog_names
             (mkPod "p" [] [mkFile "f"; mkFile "f"] [mkVolume "a"; mkVolume "a"])).
    apply (bool_decide_unpack _). vm_compute. reflexivity.
  - apply (Validate_duplicate_catalog_names
             (mkPod "p" [] [mkFile "f"; mkFile "f"] [mkVolume "a"; mkVolume "b"]));
      apply (bool_decide_unpack _); vm_compute; reflexivity.
Defined.

Lemma good_container_ok : container_ok ["data"] ["a"] good_container.
Proof.
  split; [split; apply NoDup_singleton|]. split.
  - apply Forall_cons. split; [|constructor]. split; [left|reflexivity].
  - apply Forall_cons. split; [left|constructor].
Qed.

(** X5: [Validate] succeeds exactly on the pods whose two catalogs have
    pairwise distinct names and whose every container has distinct volume
    mounts and distinct environment names, file mounts that name
    catalogued files with permission strings that pass the check, and
    volume mounts that name catalogued volumes. *)
Theorem Validate_success_iff (pod : UserPod) :
  Validate pod = None ↔
  catalogs_unique pod ∧
  Forall (container_ok (volume_names pod) (file_names pod)) (pod_Containers pod).
Proof.
  split.
  - intros Hok.
    destruct (decide (NoDup (volume_names pod))) as [Hv|Hv];
      [|by rewrite (Validate_duplicate_volumes pod Hv) in Hok].
    destruct (decide (NoDup (file_names pod))) as [Hf|Hf];
      [|by rewrite (Validate_duplicate_files pod Hv Hf) in Hok].
    split; [by split|].
    rewrite (Validate_catalogs_unique pod (conj Hv Hf)) in Hok.
    destruct (Validate_range_Containers_total (volume_names pod) (file_names pod)
                (pod_Containers pod) 0%nat pod) as [(Hall & _)|(_ & msg & Hmsg)];
      [done|].
    unfold volume_names, file_names in Hmsg. by rewrite Hmsg in Hok.
  - intros [Hcat Hall]. rewrite (Validate_catalogs_unique pod Hcat).
    destruct (Validate_range_Containers_total (volume_names pod) (file_names pod)
                (pod_Containers pod) 0%nat pod) as [(_ & Hrun)|(Hbad & _)];
      [|done].
    unfold volume_names, file_names in Hrun. by rewrite Hrun.
Qed.

Lemma Validate_success_iff_witness :
  Validate (mkPod "p" [good_container; good_container] [mkFile "a"] [mkVolume "data"])
  = None.
Proof.
  apply Validate_success_iff. split.
  - split; apply (bool_decide_unpack _); vm_compute; reflexivity.
  - repeat (apply Forall_cons; split; [apply good_container_ok|]). constructor.
Defined.

(** *** Passing mounts and passing containers are skipped *)

Lemma Validate_range_Files_skip fnames idx fpre rest σ :
  Forall (file_mount_ok fnames) fpre →
  Validate_range_Files (key_map fnames) idx (fpre ++ rest) σ
  = Validate_range_Files (key_map fnames) idx rest σ.
Proof.
  induction 1 as [|f fpre [Hf Hp] _ IH]; [reflexivity|].
  cbn [app]. rewrite Validate_range_Files_cons, map_has_key_map, Hp.
  by rewrite bool_decide_eq_true_2.
Qed.

Lemma Validate_range_Volumes_skip vnames idx vpre rest σ :
  Forall (λ v, vref_Volume v ∈ vnames) vpre →
  Validate_range_Volumes (key_map vnames) idx (vpre ++ rest) σ
  = Validate_range_Volumes (key_map vnames) idx rest σ.
Proof.
  induction 1 as [|v vpre Hv _ IH]; [reflexivity|].
  cbn [app]. rewrite Validate_range_Volumes_cons, map_has_key_map.
  by rewrite bool_decide_eq_true_2.
Qed.

Lemma Validate_range_Files_pass fnames idx files σ :
  Forall (file_mount_ok fnames) files →
  Validate_range_Files (key_map fnames) idx files σ = (inr (), σ).
Proof.
  intros H. rewrite <- (app_nil_r files).
  by rewrite Validate_range_Files_skip.
Qed.

Lemma Validate_range_Volumes_pass vnames idx volumes σ :
  Forall (λ v, vref_Volume v ∈ vnames) volumes →
  Validate_range_Volumes (key_map vnames) idx volumes σ = (inr (), σ).
Proof.
  intros H. rewrite <- (app_nil_r volumes).
  by rewrite Validate_range_Volumes_skip.
Qed.

Lemma Validate_range_Containers_skip vnames fnames pre rest σ :
  Forall (container_ok vnames fnames) pre →
  ∀ idx,
  Validate_range_Containers (key_map vnames) (key_map fnames) idx (pre ++ rest) σ
  = Validate_range_Containers (key_map vnames) (key_map fnames)
      (idx + length pre) rest σ.
Proof.
  induction 1 as [|c pre (Hu & Hf & Hv) _ IH]; intros idx.
  - cbn [app length]. by rewrite Nat.add_0_r.
  - cbn [app length]. rewrite Validate_range_Containers_cons.
    destruct (mounts_unique_keySet c Hu) as [-> ->].
    rewrite (Validate_range_Files_pass _ _ _ _ Hf),
      (Validate_range_Volumes_pass _ _ _ _ Hv), IH.
    f_equal. lia.
Qed.

(** With distinct catalog names and passing containers [pre] in front,
    the verdict is the one of the loop entered at container
    [length pre]. *)
Lemma Validate_after_passing (pod : UserPod) pre rest :
  catalogs_unique pod →
  pod_Containers pod = pre ++ rest →
  Forall (container_ok (volume_names pod) (file_names pod)) pre →
  Validate pod =
  match fst (Validate_range_Containers (key_map (volume_names pod))
               (key_map (file_names pod)) (length pre) rest pod) with
  | inl e => e
  | inr _ => None
  end.
Proof.
  intros Hcat Hsplit Hpre. rewrite (Validate_catalogs_unique pod Hcat), Hsplit.
  fold (volume_names pod) (file_names pod).
  by rewrite (Validate_range_Containers_skip _ _ _ _ _ Hpre).
Qed.

(** X6: on a pod whose two catalogs have pairwise distinct names, when
    the containers in front of container [length pre] pass every check
    and that container mounts some volume twice, [Validate] returns the
    duplicate-mount error with the index [length pre], whatever the rest
    of that container and the later containers hold. *)
Theorem Validate_first_duplicate_mount (pod : UserPod) pre c post :
  catalogs_unique pod →
  pod_Containers pod = pre ++ c :: post →
  Forall (container_ok (volume_names pod) (file_names pod)) pre →
  ¬ NoDup (vref_Volume <$> ctr_Volumes c) →
  Validate pod = dup_mount_error (length pre).
Proof.
  intros Hcat Hsplit Hpre Hdup.
  rewrite (Validate_after_passing pod pre (c :: post) Hcat Hsplit Hpre).
  rewrite Validate_range_Containers_cons.
  by rewrite (keySet_not_unique _ _ (keyed_VolumeReferences _) Hdup).
Qed.

(** X7: on a pod whose two catalogs have pairwise distinct names, when
    the containers in front pass every check and container [length pre]
    has distinct volume mounts but repeats an environment name,
    [Validate] returns the duplicate-environment error with the index
    [length pre], before looking at that container's file and volume
    references. *)
Theorem Validate_first_duplicate_env (pod : UserPod) pre c post :
  catalogs_unique pod →
  pod_Containers pod = pre ++ c :: post →
  Forall (container_ok (volume_names pod) (file_names pod)) pre →
  NoDup (vref_Volume <$> ctr_Volumes c) →
  ¬ NoDup (env_Env <$> ctr_Envs c) →
  Validate pod = dup_env_error (length pre).
Proof.
  intros Hcat Hsplit Hpre Hv Hdup.
  rewrite (Validate_after_passing pod pre (c :: post) Hcat Hsplit Hpre).
  rewrite Validate_range_Containers_cons.
  rewrite (keySet_distinct _ _ (keyed_VolumeReferences _) Hv).
  by rewrite (keySet_not_unique _ _ (keyed_EnvironmentVars _) Hdup).
Qed.

(** X8: on a pod whose two catalogs have pairwise distinct names, when
    the containers in front pass every check, container [length pre]
    passes its uniqueness checks and the file mounts in front of [f] are
    fine, a file mount [f] that names no catalogued file makes [Validate]
    return the dangling-file error with the index [length pre] and the
    name of [f]. *)
Theorem Validate_first_dangling_file (pod : UserPod) pre c post fpre f fpost :
  catalogs_unique pod →
  pod_Containers pod = pre ++ c :: post →
  Forall (container_ok (volume_names pod) (file_names pod)) pre →
  mounts_unique c →
  ctr_Files c = fpre ++ f :: fpost →
  Forall (file_mount_ok (file_names pod)) fpre →
  fref_Filename f ∉ file_names pod →
  Validate pod = file_error (length pre) (fref_Filename f).
Proof.
  intros Hcat Hsplit Hpre Hu Hfiles Hfpre Hf.
  rewrite (Validate_after_passing pod pre (c :: post) Hcat Hsplit Hpre).
  rewrite Validate_range_Containers_cons.
  destruct (mounts_unique_keySet c Hu) as [-> ->].
  rewrite Hfiles, (Validate_range_Files_skip _ _ _ _ _ Hfpre),
    Validate_range_Files_cons, map_has_key_map.
  by rewrite bool_decide_eq_false_2.
Qed.

(** X9: on a pod whose two catalogs have pairwise distinct names, when
    the containers in front pass every check, container [length pre]
    passes its uniqueness checks and the file mounts in front of [f] are
    fine, a file mount [f] that names a catalogued file but whose
    permission string fails the check makes [Validate] return the error
    of the permission check, whatever follows [f]. *)
Theorem Validate_first_bad_perm (pod : UserPod) pre c post fpre f fpost :
  catalogs_unique pod →
  pod_Containers pod = pre ++ c :: post →
  Forall (container_ok (volume_names pod) (file_names pod)) pre →
  mounts_unique c →
  ctr_Files c = fpre ++ f :: fpost →
  Forall (file_mount_ok (file_names pod)) fpre →
  fref_Filename f ∈ file_names pod →
  perm_check (fref_Perm f) = false →
  Validate pod = perm_error.
Proof.
  intros Hcat Hsplit Hpre Hu Hfiles Hfpre Hf Hp.
  rewrite (Validate_after_passing pod pre (c :: post) Hcat Hsplit Hpre).
  rewrite Validate_range_Containers_cons.
  destruct (mounts_unique_keySet c Hu) as [-> ->].
  rewrite Hfiles, (Validate_range_Files_skip _ _ _ _ _ Hfpre),
    Validate_range_Files_cons, map_has_key_map, Hp.
  by rewrite bool_decide_eq_true_2.
Qed.

(** X10: on a pod whose two catalogs have pairwise distinct names,
    when the containers in front pass every check and container
    [length pre] passes its uniqueness checks and all its file checks, a
    volume mount [v] that names no catalogued volume, with resolving
    volume mounts in front of it, makes [Validate] return the
    dangling-volume error with the index [length pre] and the name of
    [v]. *)
Theorem Validate_first_dangling_volume (pod : UserPod) pre c post vpre v vpost :
  catalogs_unique pod →
  pod_Containers pod = pre ++ c :: post →
  Forall (container_ok (volume_names pod) (file_names pod)) pre →
  mounts_unique c →
  Forall (file_mount_ok (file_names pod)) (ctr_Files c) →
  ctr_Volumes c = vpre ++ v :: vpost →
  Forall (λ v, vref_Volume v ∈ volume_names pod) vpre →
  vref_Volume v ∉ volume_names pod →
  Validate pod = volume_error (length pre) (vref_Volume v).
Proof.
  intros Hcat Hsplit Hpre Hu Hfiles Hvols Hvpre Hv.
  rewrite (Validate_after_passing pod pre (c :: post) Hcat Hsplit Hpre).
  rewrite Validate_range_Containers_cons.
  destruct (mounts_unique_keySet c Hu) as [-> ->].
  rewrite (Validate_range_Files_pass _ _ _ _ Hfiles).
  rewrite Hvols, (Validate_range_Volumes_skip _ _ _ _ _ Hvpre),
    Validate_range_Volumes_cons, map_has_key_map.
  by rewrite bool_decide_eq_false_2.
Qed.

Lemma catalogued_pod_unique containers : catalogs_unique (catalogued_pod containers).
Proof. split; apply NoDup_singleton. Qed.

Lemma good_container_passes :
  Forall (container_ok ["data"] ["a"]) [good_container].
Proof. apply Forall_cons. split; [apply good_container_ok|constructor]. Qed.

Lemma Validate_first_duplicate_mount_witness :
  Validate (catalogued_pod
              [good_container;
               mkContainerWith [] [mkVolumeReference "data"; mkVolumeReference "data"]
                 [mkFileReference "zz" "rwx"];
               good_container])
  = dup_mount_error 1.
Proof.
  eapply (Validate_first_duplicate_mount _ [good_container] _ [good_container]).
  - apply catalogued_pod_unique.
  - reflexivity.
  - apply good_container_passes.
  - apply (bool_decide_unpack _). vm_compute. reflexivity.
Defined.

Lemma Validate_first_duplicate_env_witness :
  Validate (catalogued_pod
              [good_container;
               mkContainerWith [mkEnvironmentVar "HOME"; mkEnvironmentVar "HOME"]
                 [mkVolumeReference "nowhere"] [mkFileReference "zz" "rwx"]])
  = dup_env_error 1.
Proof.
  eapply (Validate_first_duplicate_env _ [good_container] _ []).
  - apply catalogued_pod_unique.
  - reflexivity.
  - apply good_container_passes.
  - apply NoDup_singleton.
  - apply (bool_decide_unpack _). vm_compute. reflexivity.
Defined.

Lemma Validate_first_dangling_file_witness :
  Validate (catalogued_pod
              [good_container;
               mkContainerWith [] [mkVolumeReference "nowhere"]
                 [mkFileReference "a" EmptyString; mkFileReference "zz" "rwx";
                  mkFileReference "yy" EmptyString]])
  = file_error 1 "zz".
Proof.
  eapply (Validate_first_dangling_file _ [good_container] _ []
           [mkFileReference "a" EmptyString] (mkFileReference "zz" "rwx")
           [mkFileReference "yy" EmptyString]).
  - apply catalogued_pod_unique.
  - reflexivity.
  - apply good_container_passes.
  - split; [apply NoDup_singleton|constructor].
  - reflexivity.
  - apply Forall_cons. split; [|constructor]. split; [left|reflexivity].
  - apply (bool_decide_unpack _). vm_compute. reflexivity.
Defined.

Lemma Validate_first_bad_perm_witness :
  Validate (catalogued_pod
              [good_container;
               mkContainerWith [] [mkVolumeReference "nowhere"]
                 [mkFileReference "a" EmptyString; mkFileReference "a" "rwx";
                  mkFileReference "zz" EmptyString]])
  = perm_error.
Proof.
  eapply (Validate_first_bad_perm _ [good_container] _ []
           [mkFileReference "a" EmptyString] (mkFileReference "a" "rwx")
           [mkFileReference "zz" EmptyString]).
  - apply catalogued_pod_unique.
  - reflexivity.
  - apply good_container_passes.
  - split; [apply NoDup_singleton|constructor].
  - reflexivity.
  - apply Forall_cons. split; [|constructor]. split; [left|reflexivity].
  - left.
  - reflexivity.
Defined.

Lemma Validate_first_dangling_volume_witness :
  Validate (catalogued_pod
              [good_container;
               mkContainerWith []
                 [mkVolumeReference "data"; mkVolumeReference "nowhere";
                  mkVolumeReference "elsewhere"]
                 [mkFileReference "a" "0644"]])
  = volume_error 1 "nowhere".
Proof.
  eapply (Validate_first_dangling_volume _ [good_container] _ []
           [mkVolumeReference "data"] (mkVolumeReference "nowhere")
           [mkVolumeReference "elsewhere"]).
  - apply catalogued_pod_unique.
  - reflexivity.
  - apply good_container_passes.
  - split; [|constructor]. apply (bool_decide_unpack _). vm_compute. reflexivity.
  - apply Forall_cons. split; [|constructor]. split; [left|reflexivity].
  - reflexivity.
  - apply Forall_cons. split; [left|constructor].
  - apply (bool_decide_unpack _). vm_compute. reflexivity.
Defined.

(** ** [Validate] reads the catalogs and the containers only *)

Lemma Validate_range_Files_stateless fset idx files :
  ∃ r, ∀ σ, Validate_range_Files fset idx files σ = (r, σ).
Proof.
  induction files as [|f rest [r Hr]]; [by exists (inr ())|].
  exists (if map_has fset (fref_Filename f) then
            if perm_check (fref_Perm f) then r else inl perm_error
          else inl (file_error idx (fref_Filename f))).
  intros σ. rewrite Validate_range_Files_cons, Hr.
  destruct (map_has _ _); [|done]. by destruct (perm_check _).
Qed.

Lemma Validate_range_Volumes_stateless vset idx volumes :
  ∃ r, ∀ σ, Validate_range_Volumes vset idx volumes σ = (r, σ).
Proof.
  induction volumes as [|v rest [r Hr]]; [by exists (inr ())|].
  exists (if map_has vset (vref_Volume v) then r
          else inl (volume_error idx (vref_Volume v))).
  intros σ. rewrite Validate_range_Volumes_cons, Hr.
  by destruct (map_has _ _).
Qed.

Lemma Validate_range_Containers_stateless vset fset containers :
  ∀ idx, ∃ r, ∀ σ, Validate_range_Containers vset fset idx containers σ = (r, σ).
Proof.
  induction containers as [|c rest IH]; intros idx; [by exists (inr ())|].
  destruct (Validate_range_Files_stateless fset idx (ctr_Files c)) as [rf Hf].
  destruct (Validate_range_Volumes_stateless vset idx (ctr_Volumes c)) as [rv Hv].
  destruct (IH (S idx)) as [rc Hc].
  exists (if fst (keySet (AnySlice (AnyVolumeReference <$> ctr_Volumes c))) then
            if fst (keySet (AnySlice (AnyEnvironmentVar <$> ctr_Envs c))) then
              match rf with
              | inl e => inl e
              | inr _ => match rv with inl e => inl e | inr _ => rc end
              end
            else inl (dup_env_error idx)
          else inl (dup_mount_error idx)).
  intros σ. rewrite Validate_range_Containers_cons, Hf.
  destruct (fst (keySet _)); [|done]. destruct (fst (keySet _)); [|done].
  destruct rf; [done|]. rewrite Hv. destruct rv; [done|]. apply Hc.
Qed.

Lemma Validate_of_body (p : UserPod) :
  Validate p = match fst (Validate_body p) with inl e => e | inr _ => None end.
Proof.
  unfold Validate, Validate_exec. by destruct (Validate_body p) as [[e|[]] σ].
Qed.

Lemma Validate_body_reads (p q : UserPod) :
  pod_Volumes p = pod_Volumes q →
  pod_Files p = pod_Files q →
  pod_Containers p = pod_Containers q →
  fst (Validate_body p) = fst (Validate_body q).
Proof.
  intros Hv Hf Hc.
  unfold Validate_body, vm_bind, vm_read, return_if, vm_return, vm_ret.
  rewrite Hv.
  destruct (keySet (AnySlice (AnyVolume <$> pod_Volumes q))) as [uniqv vset].
  destruct (negb uniqv && (0 <? size vset)%nat); cbv beta iota; [reflexivity|].
  rewrite Hf.
  destruct (keySet (AnySlice (AnyFile <$> pod_Files q))) as [uniqf fset].
  destruct (negb uniqf && (0 <? size fset)%nat); cbv beta iota; [reflexivity|].
  rewrite Hc.
  destruct (Validate_range_Containers_stateless vset fset (pod_Containers q) 0%nat)
    as [r Hr].
  rewrite !Hr. by destruct r.
Qed.

(** X11: the verdict of [Validate] is a function of the volume catalog,
    the file catalog and the containers: pods that agree on these three
    fields get the same verdict, whatever their name, resources, tty flag
    and type. *)
Theorem Validate_reads_catalogs_and_containers (p q : UserPod) :
  pod_Volumes p = pod_Volumes q →
  pod_Files p = pod_Files q →
  pod_Containers p = pod_Containers q →
  Validate p = Validate q.
Proof.
  intros Hv Hf Hc. rewrite !Validate_of_body.
  by rewrite (Validate_body_reads p q Hv Hf Hc).
Qed.

Lemma Validate_reads_catalogs_and_containers_witness :
  Validate (named_pod "web" 4 512) = Validate (named_pod EmptyString 0 0).
Proof.
  apply Validate_reads_catalogs_and_containers; reflexivity.
Defined.

(** ** [ProcessPodBytes]: what a returned record looks like *)

Lemma resource_defaults_fields (q : UserPod) :
  pod_Name (resource_defaults q) = pod_Name q ∧
  pod_Files (resource_defaults q) = pod_Files q ∧
  pod_Tty (resource_defaults q) = pod_Tty q ∧
  pod_Type (resource_defaults q) = pod_Type q ∧
  res_Vcpu (pod_Resource (resource_defaults q))
  = (if (res_Vcpu (pod_Resource q) =? 0)%Z then 1 else res_Vcpu (pod_Resource q))%Z ∧
  res_Memory (pod_Resource (resource_defaults q))
  = (if (res_Memory (pod_Resource q) =? 0)%Z then 128
     else res_Memory (pod_Resource q))%Z.
Proof.
  unfold resource_defaults.
  destruct (res_Vcpu (pod_Resource q) =? 0)%Z;
    cbn [set_pod_Resource set_res_Vcpu pod_Resource res_Memory];
    destruct (res_Memory (pod_Resource q) =? 0)%Z; by repeat split.
Qed.

Lemma ProcessPodBytes_range_Volumes_pass volumes :
  Forall (λ v, vol_Name v ≠ EmptyString) volumes →
  ProcessPodBytes_range_Volumes volumes = None.
Proof.
  induction 1 as [|v rest Hv _ IH]; [done|]. simpl.
  by destruct (String.eqb_spec (vol_Name v) EmptyString).
Qed.

Lemma structural_checks_pass (q : UserPod) :
  structurally_sound q → structural_checks q = (Some q, None).
Proof.
  intros (Hne & Himg & Hvol). unfold structural_checks.
  rewrite (ProcessPodBytes_range_Containers_count _ Himg).
  destruct (Z.eqb_spec (0 + Z.of_nat (length (pod_Containers q))) 0) as [Hz|_].
  - exfalso. destruct (pod_Containers q); [congruence|simpl in Hz; lia].
  - by rewrite (ProcessPodBytes_range_Volumes_pass _ Hvol).
Qed.

Lemma structural_checks_fail (q : UserPod) :
  ¬ structurally_sound q → ∃ msg, structural_checks q = (None, Some msg).
Proof.
  intros Hbad. unfold structural_checks.
  destruct (decide (Forall (λ c, ctr_Image c ≠ EmptyString) (pod_Containers q)))
    as [Himg|Himg].
  2:{ apply not_Forall_Exists in Himg; [|apply _].
      apply Exists_exists in Himg as (c & Hc & Hempty).
      rewrite ProcessPodBytes_range_Containers_missing_image; [by eexists|].
      exists c. split; [done|].
      destruct (decide (ctr_Image c = EmptyString)); [done|]. by destruct Hempty. }
  rewrite (ProcessPodBytes_range_Containers_count _ Himg).
  destruct (Z.eqb_spec (0 + Z.of_nat (length (pod_Containers q))) 0) as [|Hz];
    [by eexists|].
  destruct (decide (Forall (λ v, vol_Name v ≠ EmptyString) (pod_Volumes q)))
    as [Hvol|Hvol].
  - destruct Hbad. split; [|done]. intros Hnil. rewrite Hnil in Hz. simpl in Hz. lia.
  - apply not_Forall_Exists in Hvol; [|apply _].
    apply Exists_exists in Hvol as (v & Hv & Hempty).
    rewrite ProcessPodBytes_range_Volumes_empty_name; [by eexists|].
    exists v. split; [done|].
    destruct (decide (vol_Name v = EmptyString)); [done|]. by destruct Hempty.
Qed.

Lemma structurally_sound_dec (q : UserPod) :
  structurally_sound q ∨ ¬ structurally_sound q.
Proof.
  unfold structurally_sound.
  destruct (decide (pod_Containers q = [])); [right; tauto|].
  destruct (decide (Forall (λ c, ctr_Image c ≠ EmptyString) (pod_Containers q)));
    [|right; tauto].
  destruct (decide (Forall (λ v, vol_Name v ≠ EmptyString) (pod_Volumes q)));
    [left|right]; tauto.
Qed.

Lemma structurally_sound_defaults (q : UserPod) (name : string) :
  structurally_sound (resource_defaults (set_pod_Name q name)) ↔ structurally_sound q.
Proof.
  unfold structurally_sound.
  by rewrite resource_defaults_Containers, resource_defaults_Volumes.
Qed.

(** Every run, read backwards: the decoder failed, or it gave a record
    [q] and the result is the one of the structural checks on [q] with
    its name (kept, or drawn from the random source) and resource
    defaults. *)
Lemma ProcessPodBytes_inv (json_Unmarshal : string → string + UserPod)
    body src r src' :
  ProcessPodBytes json_Unmarshal body src = Some (r, src') →
  (∃ err, json_Unmarshal body = inl err ∧ r = (None, Some err) ∧ src' = src) ∨
  (∃ q name,
     json_Unmarshal body = inr q ∧
     r = structural_checks (resource_defaults (set_pod_Name q name)) ∧
     ((pod_Name q ≠ EmptyString ∧ name = pod_Name q ∧ src' = src) ∨
      (pod_Name q = EmptyString ∧ RandStr 10 "alphanum" src = Some (name, src')))).
Proof.
  intros Hrun. destruct (json_Unmarshal body) as [err|q] eqn:H.
  { rewrite (ProcessPodBytes_decode_error _ _ _ err H) in Hrun.
    injection Hrun as <- <-. left. by exists err. }
  right. destruct (decide (pod_Name q = EmptyString)) as [Hname|Hname].
  - destruct (ProcessPodBytes_unnamed _ body src q H Hname)
      as (name & src1 & Hrand & Hrun').
    rewrite Hrun' in Hrun. injection Hrun as <- <-.
    exists q, name. split; [done|]. split; [done|]. by right.
  - rewrite (ProcessPodBytes_named _ body src q H Hname) in Hrun.
    injection Hrun as <- <-.
    exists q, (pod_Name q). split; [done|]. split; [by destruct q|]. by left.
Qed.

Lemma ProcessPodBytes_total (json_Unmarshal : string → string + UserPod) body src :
  ∃ r src', ProcessPodBytes json_Unmarshal body src = Some (r, src').
Proof.
  destruct (json_Unmarshal body) as [err|q] eqn:H.
  - rewrite (ProcessPodBytes_decode_error _ _ _ err H). eauto.
  - destruct (ProcessPodBytes_decoded _ body src q H) as (name & src' & ->). eauto.
Qed.

(** X12: [ProcessPodBytes] never panics, and it returns either a record
    with a nil error or no record with an error, never both and never
    neither. *)
Theorem ProcessPodBytes_record_xor_error
    (json_Unmarshal : string → string + UserPod) body src :
  ∃ r src', ProcessPodBytes json_Unmarshal body src = Some (r, src') ∧
            ((∃ p, r = (Some p, None)) ∨ (∃ msg, r = (None, Some msg))).
Proof.
  destruct (ProcessPodBytes_total json_Unmarshal body src) as (r & src' & Hrun).
  exists r, src'. split; [done|].
  destruct (ProcessPodBytes_inv _ _ _ _ _ Hrun)
    as [(err & _ & -> & _)|(q & name & _ & -> & _)]; [right; by exists err|].
  destruct (structurally_sound_dec (resource_defaults (set_pod_Name q name)))
    as [Hok|Hbad].
  - left. rewrite (structural_checks_pass _ Hok). eauto.
  - right. apply (structural_checks_fail _ Hbad).
Qed.

(** X13: [ProcessPodBytes] returns a record exactly when the document
    decodes to a record with at least one container, a non-empty image in
    every container and a non-empty name on every top-level volume. *)
Theorem ProcessPodBytes_success_iff
    (json_Unmarshal : string → string + UserPod) body src :
  (∃ p e src', ProcessPodBytes json_Unmarshal body src = Some ((Some p, e), src')) ↔
  (∃ q, json_Unmarshal body = inr q ∧ structurally_sound q).
Proof.
  split.
  - intros (p & e & src' & Hrun).
    destruct (ProcessPodBytes_inv _ _ _ _ _ Hrun)
      as [(err & _ & [=] & _)|(q & name & H & Hr & _)].
    exists q. split; [done|].
    destruct (structurally_sound_dec q) as [|Hbad]; [done|].
    rewrite <- (structurally_sound_defaults q name) in Hbad.
    destruct (structural_checks_fail _ Hbad) as [msg Hmsg]. congruence.
  - intros (q & H & Hok).
    destruct (ProcessPodBytes_decoded _ body src q H) as (name & src' & ->).
    apply (structurally_sound_defaults q name) in Hok.
    rewrite (structural_checks_pass _ Hok). eauto.
Qed.

Lemma ProcessPodBytes_success_iff_witness :
  ∃ p e src', ProcessPodBytes (decode_as (named_pod EmptyString 0 0)) "pod.json"
                counting_source = Some ((Some p, e), src').
Proof.
  apply ProcessPodBytes_success_iff.
  exists (named_pod EmptyString 0 0). split; [reflexivity|].
  split; [discriminate|]. split.
  - apply Forall_cons. split; [discriminate|constructor].
  - apply Forall_cons. split; [discriminate|constructor].
Defined.

Lemma RandStr_alphanum_nonempty src name src' :
  RandStr 10 "alphanum" src = Some (name, src') → name ≠ EmptyString.
Proof.
  intros Hrand.
  destruct (RandStr_alphanum 10 src make_accepts_10) as (s & Hs & Hlen & _).
  rewrite Hrand in Hs. injection Hs as -> _. intros ->. discriminate Hlen.
Qed.

(** A returned record, read backwards: the decoded record [q] was
    structurally sound and the result is [q] with a name and the resource
    defaults. *)
Lemma ProcessPodBytes_success_inv (json_Unmarshal : string → string + UserPod)
    body src p e src' :
  ProcessPodBytes json_Unmarshal body src = Some ((Some p, e), src') →
  ∃ q name,
    json_Unmarshal body = inr q ∧ structurally_sound q ∧ e = None ∧
    p = resource_defaults (set_pod_Name q name) ∧ name ≠ EmptyString ∧
    ((pod_Name q ≠ EmptyString ∧ name = pod_Name q ∧ src' = src) ∨
     (pod_Name q = EmptyString ∧ RandStr 10 "alphanum" src = Some (name, src'))).
Proof.
  intros Hrun.
  destruct (ProcessPodBytes_inv _ _ _ _ _ Hrun)
    as [(err & _ & [=] & _)|(q & name & H & Hr & Hname)].
  exists q, name.
  destruct (structurally_sound_dec q) as [Hok|Hbad].
  2:{ rewrite <- (structurally_sound_defaults q name) in Hbad.
      destruct (structural_checks_fail _ Hbad) as [msg Hmsg]. congruence. }
  pose proof Hok as Hok'. rewrite <- (structurally_sound_defaults q name) in Hok'.
  rewrite (structural_checks_pass _ Hok') in Hr. injection Hr as -> ->.
  split; [done|]. split; [done|]. split; [done|]. split; [done|].
  split; [|done].
  destruct Hname as [(Hq & Heq & _)|(_ & Hrand)]; [congruence|].
  by eapply RandStr_alphanum_nonempty.
Qed.

(** X14: every record [ProcessPodBytes] returns has a non-empty name,
    a [vcpu] and a [memory] different from zero, at least one container,
    a non-empty image in every container and a non-empty name on every
    volume. *)
Theorem ProcessPodBytes_postcondition
    (json_Unmarshal : string → string + UserPod) body src p e src' :
  ProcessPodBytes json_Unmarshal body src = Some ((Some p, e), src') →
  pod_Name p ≠ EmptyString ∧
  res_Vcpu (pod_Resource p) ≠ 0%Z ∧
  res_Memory (pod_Resource p) ≠ 0%Z ∧
  structurally_sound p.
Proof.
  intros Hrun.
  destruct (ProcessPodBytes_success_inv _ _ _ _ _ _ Hrun)
    as (q & name & _ & Hok & _ & -> & Hname & _).
  destruct (resource_defaults_fields (set_pod_Name q name))
    as (-> & _ & _ & _ & -> & ->).
  split; [done|]. split; [|split].
  - destruct (Z.eqb_spec (res_Vcpu (pod_Resource (set_pod_Name q name))) 0); done.
  - destruct (Z.eqb_spec (res_Memory (pod_Resource (set_pod_Name q name))) 0); done.
  - by apply structurally_sound_defaults.
Qed.

Lemma ProcessPodBytes_postcondition_witness :
  ∃ p, pod_Name p ≠ EmptyString ∧
       res_Vcpu (pod_Resource p) ≠ 0%Z ∧
       res_Memory (pod_Resource p) ≠ 0%Z ∧
       structurally_sound p.
Proof.
  exists (resource_defaults (set_pod_Name (minimal_pod "busybox") "0123456789")).
  apply (ProcessPodBytes_postcondition decode_minimal minimal_document
           counting_source _ None (λ i, counting_source (10 + i)%nat)).
  vm_compute. reflexivity.
Defined.

(** X15: a returned record is the decoded one except for the defaults:
    containers, files, volumes, tty flag and type are the decoded ones; a
    non-empty decoded name and non-zero decoded [vcpu] and [memory] are
    kept (negative values included); a zero [vcpu] becomes 1 and a zero
    [memory] becomes 128. *)
Theorem ProcessPodBytes_keeps_decoded
    (json_Unmarshal : string → string + UserPod) body src p e src' :
  ProcessPodBytes json_Unmarshal body src = Some ((Some p, e), src') →
  ∃ q, json_Unmarshal body = inr q ∧
       pod_Containers p = pod_Containers q ∧
       pod_Files p = pod_Files q ∧
       pod_Volumes p = pod_Volumes q ∧
       pod_Tty p = pod_Tty q ∧
       pod_Type p = pod_Type q ∧
       (pod_Name q ≠ EmptyString → pod_Name p = pod_Name q) ∧
       res_Vcpu (pod_Resource p)
       = (if (res_Vcpu (pod_Resource q) =? 0)%Z then 1
          else res_Vcpu (pod_Resource q))%Z ∧
       res_Memory (pod_Resource p)
       = (if (res_Memory (pod_Resource q) =? 0)%Z then 128
          else res_Memory (pod_Resource q))%Z.
Proof.
  intros Hrun.
  destruct (ProcessPodBytes_success_inv _ _ _ _ _ _ Hrun)
    as (q & name & H & _ & _ & -> & _ & Hname).
  exists q. split; [done|].
  rewrite resource_defaults_Containers, resource_defaults_Volumes.
  destruct (resource_defaults_fields (set_pod_Name q name))
    as (-> & -> & -> & -> & -> & ->).
  repeat split; try done.
  intros Hq. by destruct Hname as [(_ & -> & _)|(Hq' & _)].
Qed.

Lemma ProcessPodBytes_keeps_decoded_witness :
  ∃ q, decode_as (named_pod "web" (-2) 0) "pod.json" = inr q ∧
       pod_Containers (resource_defaults (named_pod "web" (-2) 0)) = pod_Containers q ∧
       pod_Files (resource_defaults (named_pod "web" (-2) 0)) = pod_Files q ∧
       pod_Volumes (resource_defaults (named_pod "web" (-2) 0)) = pod_Volumes q ∧
       pod_Tty (resource_defaults (named_pod "web" (-2) 0)) = pod_Tty q ∧
       pod_Type (resource_defaults (named_pod "web" (-2) 0)) = pod_Type q ∧
       (pod_Name q ≠ EmptyString →
        pod_Name (resource_defaults (named_pod "web" (-2) 0)) = pod_Name q) ∧
       res_Vcpu (pod_Resource (resource_defaults (named_pod "web" (-2) 0)))
       = (if (res_Vcpu (pod_Resource q) =? 0)%Z then 1
          else res_Vcpu (pod_Resource q))%Z ∧
       res_Memory (pod_Resource (resource_defaults (named_pod "web" (-2) 0)))
       = (if (res_Memory (pod_Resource q) =? 0)%Z then 128
          else res_Memory (pod_Resource q))%Z.
Proof.
  apply (ProcessPodBytes_keeps_decoded (decode_as (named_pod "web" (-2) 0))
           "pod.json" counting_source _ None counting_source).
  vm_compute. reflexivity.
Defined.

(** X16: [ProcessPodBytes] reads the random source only to name a pod
    whose document has no id, and then takes exactly 10 bytes, also when
    the structural checks reject the document afterwards; in every other
    run the random source is left as it was. *)
Theorem ProcessPodBytes_random_source
    (json_Unmarshal : string → string + UserPod) body src r src' :
  ProcessPodBytes json_Unmarshal body src = Some (r, src') →
  (∀ q, json_Unmarshal body = inr q → pod_Name q = EmptyString →
        ∀ i, src' i = src (10 + i)%nat) ∧
  ((∀ q, json_Unmarshal body = inr q → pod_Name q ≠ EmptyString) → src' = src).
Proof.
  intros Hrun.
  destruct (ProcessPodBytes_inv _ _ _ _ _ Hrun)
    as [(err & H & _ & ->)|(q & name & H & _ & Hname)].
  { split; [|done]. intros q Hq. congruence. }
  split.
  - intros q' Hq' Hempty i. assert (q' = q) as -> by congruence.
    destruct Hname as [(Hq & _)|(_ & Hrand)]; [done|].
    destruct (RandStr_alphanum 10 src make_accepts_10) as (s & Hs & _).
    rewrite Hrand in Hs. by injection Hs as _ ->.
  - intros Hnamed. destruct Hname as [(_ & _ & ->)|(Hq & _)]; [done|].
    by destruct (Hnamed q H).
Qed.

Lemma ProcessPodBytes_random_source_witness :
  (∀ i, (λ j, counting_source (10 + j)%nat) i = counting_source (10 + i)%nat) ∧
  counting_source = counting_source.
Proof.
  split.
  - refine (proj1 (ProcessPodBytes_random_source
                     (decode_as (mkPod EmptyString [] [] [])) "pod.json"
                     counting_source _ _ _) _ eq_refl eq_refl).
    vm_compute. reflexivity.
  - refine (proj2 (ProcessPodBytes_random_source
                     (decode_as (named_pod "web" 1 1)) "pod.json"
                     counting_source _ _ _) _).
    + vm_compute. reflexivity.
    + intros q [= <-]. discriminate.
Defined.

Lemma resource_defaults_idem (q : UserPod) :
  resource_defaults (resource_defaults q) = resource_defaults q.
Proof.
  destruct q as [name containers [vcpu memory] files volumes tty type].
  unfold resource_defaults. cbn -[Z.eqb].
  destruct (vcpu =? 0)%Z eqn:Hv; destruct (memory =? 0)%Z eqn:Hm;
    repeat first [ progress cbn -[Z.eqb]
                 | rewrite Hv | rewrite Hm
                 | progress change (1 =? 0)%Z with false
                 | progress change (128 =? 0)%Z with false ];
    reflexivity.
Qed.

(** X17: the defaults are applied once and for all: a record returned
    by [ProcessPodBytes], decoded again, is returned as it is, without a
    byte taken from the random source. *)
Theorem ProcessPodBytes_idempotent
    (json_Unmarshal json_Unmarshal' : string → string + UserPod)
    body body' src src2 p e src' :
  ProcessPodBytes json_Unmarshal body src = Some ((Some p, e), src') →
  json_Unmarshal' body' = inr p →
  ProcessPodBytes json_Unmarshal' body' src2 = Some ((Some p, None), src2).
Proof.
  intros Hrun H'.
  destruct (ProcessPodBytes_success_inv _ _ _ _ _ _ Hrun)
    as (q & name & _ & Hok & _ & Hp & Hname & _).
  assert (Hname' : pod_Name p ≠ EmptyString).
  { rewrite Hp. by destruct (resource_defaults_fields (set_pod_Name q name)) as (-> & _). }
  rewrite (ProcessPodBytes_named _ body' src2 p H' Hname').
  assert (Hfix : resource_defaults p = p)
    by (rewrite Hp; apply resource_defaults_idem).
  rewrite Hfix. rewrite structural_checks_pass; [done|].
  rewrite Hp. by apply structurally_sound_defaults.
Qed.

Lemma ProcessPodBytes_idempotent_witness :
  ProcessPodBytes
    (decode_as (resource_defaults (set_pod_Name (minimal_pod "busybox") "0123456789")))
    "again.json" counting_source
  = Some ((Some (resource_defaults
                   (set_pod_Name (minimal_pod "busybox") "0123456789")), None),
          counting_source).
Proof.
  apply (ProcessPodBytes_idempotent decode_minimal _ minimal_document "again.json"
           counting_source counting_source _ None (λ i, counting_source (10 + i)%nat)).
  - vm_compute. reflexivity.
  - reflexivity.
Defined.

(** X18: the defaults do not change the verdict of [Validate]: on a
    record returned by [ProcessPodBytes] it is the verdict on the decoded
    record. *)
Theorem Validate_after_ProcessPodBytes
    (json_Unmarshal : string → string + UserPod) body src p e src' :
  ProcessPodBytes json_Unmarshal body src = Some ((Some p, e), src') →
  ∃ q, json_Unmarshal body = inr q ∧ Validate p = Validate q.
Proof.
  intros Hrun.
  destruct (ProcessPodBytes_success_inv _ _ _ _ _ _ Hrun)
    as (q & name & H & _ & _ & -> & _).
  exists q. split; [done|].
  destruct (resource_defaults_fields (set_pod_Name q name)) as (_ & Hf & _).
  rewrite !Validate_of_body.
  rewrite (Validate_body_reads (resource_defaults (set_pod_Name q name)) q); [done|..].
  - by rewrite resource_defaults_Volumes.
  - by rewrite Hf.
  - by rewrite resource_defaults_Containers.
Qed.

Lemma Validate_after_ProcessPodBytes_witness :
  ∃ q, decode_minimal minimal_document = inr q ∧
       Validate (resource_defaults (set_pod_Name (minimal_pod "busybox") "0123456789"))
       = Validate q.
Proof.
  apply (Validate_after_ProcessPodBytes decode_minimal minimal_document
           counting_source _ None (λ i, counting_source (10 + i)%nat)).
  vm_compute. reflexivity.
Defined.

(** ** [RandStr]: the three classes, the byte mapping, the panics *)

Lemma RandStr_alpha_unfold (strSize : Z) (src : RandSrc) :
  RandStr strSize "alpha" src =
  if make_panics strSize then None
  else match RandStr_range "ABCDEFGHIJKLMNOPQRSTUVWXYZabcdefghijklmnopqrstuvwxyz"
               (src <$> seq 0 (Z.to_nat strSize)) with
       | None => None
       | Some bytes' =>
           Some (string_of_list_ascii bytes', λ i, src (Z.to_nat strSize + i)%nat)
       end.
Proof. reflexivity. Qed.

Lemma RandStr_number_unfold (strSize : Z) (src : RandSrc) :
  RandStr strSize "number" src =
  if make_panics strSize then None
  else match RandStr_range "0123456789" (src <$> seq 0 (Z.to_nat strSize)) with
       | None => None
       | Some bytes' =>
           Some (string_of_list_ascii bytes', λ i, src (Z.to_nat strSize + i)%nat)
       end.
Proof. reflexivity. Qed.

Lemma RandStr_alphanum_unfold (strSize : Z) (src : RandSrc) :
  RandStr strSize "alphanum" src =
  if make_panics strSize then None
  else match RandStr_range "0123456789abcdefghijklmnopqrstuvwxyz"
               (src <$> seq 0 (Z.to_nat strSize)) with
       | None => None
       | Some bytes' =>
           Some (string_of_list_ascii bytes', λ i, src (Z.to_nat strSize + i)%nat)
       end.
Proof. reflexivity. Qed.

Lemma RandStr_unknown_unfold (strSize : Z) (randType : string) (src : RandSrc) :
  ¬ known_class randType →
  RandStr strSize randType src =
  if make_panics strSize then None
  else match RandStr_range EmptyString (src <$> seq 0 (Z.to_nat strSize)) with
       | None => None
       | Some bytes' =>
           Some (string_of_list_ascii bytes', λ i, src (Z.to_nat strSize + i)%nat)
       end.
Proof.
  intros Hunknown. unfold RandStr, known_class in *.
  destruct (String.eqb_spec randType "alphanum") as [|_]; [tauto|].
  destruct (String.eqb_spec randType "alpha") as [|_]; [tauto|].
  destruct (String.eqb_spec randType "number") as [|_]; [tauto|].
  reflexivity.
Qed.

(** The loop over a dictionary it can index: the output has one symbol
    of the dictionary per byte. *)
Lemma RandStr_range_class (P : ascii → bool) (dictionary : string)
    (bytes : list ascii) :
  byte_of_len dictionary ≠ 0%N →
  Forall (λ c, P c = true) (list_ascii_of_string dictionary) →
  ∃ out, RandStr_range dictionary bytes = Some out ∧
         length out = length bytes ∧
         Forall (λ c, P c = true) out.
Proof.
  intros Hm Hdict.
  destruct (RandStr_range_total dictionary bytes Hm) as (out & Hout & Hlen & Hall).
  exists out. repeat split; [done|done|].
  rewrite Forall_forall in Hall, Hdict. rewrite Forall_forall.
  intros c Hc. by apply Hdict, Hall.
Qed.

Lemma portable_size_accepted (n : Z) :
  (0 <= n <= portable_size)%Z → make_panics n = false.
Proof.
  intros Hn. apply make_panics_false. unfold portable_size, make_limit in *. lia.
Qed.

(** X19: for every size [strSize] from 0 to [2^31 - 1] (lengths [make]
    accepts on every platform) and every content of the random source,
    [RandStr] with the class [alpha] returns [strSize] characters of
    [[A-Za-z]], and with the class [number] it returns [strSize] decimal
    digits. *)
Theorem RandStr_alpha_number (strSize : Z) (src : RandSrc) :
  (0 <= strSize <= portable_size)%Z →
  (∃ s src', RandStr strSize "alpha" src = Some (s, src') ∧
             String.length s = Z.to_nat strSize ∧
             Forall (λ c, is_alpha c = true) (list_ascii_of_string s)) ∧
  (∃ s src', RandStr strSize "number" src = Some (s, src') ∧
             String.length s = Z.to_nat strSize ∧
             Forall (λ c, is_digit c = true) (list_ascii_of_string s)).
Proof.
  intros Hn. split.
  - rewrite RandStr_alpha_unfold, (portable_size_accepted strSize Hn).
    destruct (RandStr_range_class is_alpha
                "ABCDEFGHIJKLMNOPQRSTUVWXYZabcdefghijklmnopqrstuvwxyz"
                (src <$> seq 0 (Z.to_nat strSize)))
      as (out & -> & Hlen & Hall); [discriminate|repeat constructor|].
    eexists _, _. split; [reflexivity|]. split.
    + by rewrite String_length_of_list, Hlen, length_fmap, length_seq.
    + by rewrite list_ascii_of_string_of_list_ascii.
  - rewrite RandStr_number_unfold, (portable_size_accepted strSize Hn).
    destruct (RandStr_range_class is_digit "0123456789"
                (src <$> seq 0 (Z.to_nat strSize)))
      as (out & -> & Hlen & Hall); [discriminate|repeat constructor|].
    eexists _, _. split; [reflexivity|]. split.
    + by rewrite String_length_of_list, Hlen, length_fmap, length_seq.
    + by rewrite list_ascii_of_string_of_list_ascii.
Qed.

Lemma RandStr_alpha_number_witness :
  (∃ s src', RandStr 5 "alpha" counting_source = Some (s, src') ∧
             String.length s = Z.to_nat 5 ∧
             Forall (λ c, is_alpha c = true) (list_ascii_of_string s)) ∧
  (∃ s src', RandStr 5 "number" counting_source = Some (s, src') ∧
             String.length s = Z.to_nat 5 ∧
             Forall (λ c, is_digit c = true) (list_ascii_of_string s)).
Proof.
  apply (RandStr_alpha_number 5 counting_source). unfold portable_size. lia.
Defined.

Lemma RandStr_range_empty_dictionary (bytes : list ascii) :
  bytes ≠ [] → RandStr_range EmptyString bytes = None.
Proof. by destruct bytes. Qed.

(** X20: [RandStr] panics on a negative size, whatever the class; with
    a class tag other than [alphanum], [alpha] and [number] it panics for
    every size above zero (the alphabet is empty and the remainder divides
    by zero) and returns the empty string for size zero. *)
Theorem RandStr_panics (strSize : Z) (randType : string) (src : RandSrc) :
  ((strSize < 0)%Z → RandStr strSize randType src = None) ∧
  (¬ known_class randType → (0 < strSize)%Z → RandStr strSize randType src = None) ∧
  (¬ known_class randType → strSize = 0%Z →
   ∃ src', RandStr strSize randType src = Some (EmptyString, src')).
Proof.
  split; [|split].
  - intros Hneg. unfold RandStr, make_panics.
    by destruct (Z.ltb_spec strSize 0) as [_|]; [|lia].
  - intros Hunknown Hpos. rewrite (RandStr_unknown_unfold _ _ _ Hunknown).
    destruct (make_panics strSize); [done|].
    rewrite RandStr_range_empty_dictionary; [done|].
    destruct (Z.to_nat strSize) as [|n] eqn:Hsize; [lia|discriminate].
  - intros Hunknown ->. rewrite (RandStr_unknown_unfold _ _ _ Hunknown).
    by eexists.
Qed.

Lemma RandStr_panics_witness :
  RandStr (-1) "alphanum" counting_source = None ∧
  RandStr 10 "alphanumeric" counting_source = None ∧
  ∃ src', RandStr 0 "alphanumeric" counting_source = Some (EmptyString, src').
Proof.
  assert (Hunknown : ¬ known_class "alphanumeric")
    by (intros [H|[H|H]]; discriminate H).
  split; [|split].
  - destruct (RandStr_panics (-1) "alphanum" counting_source) as (Hneg & _ & _).
    apply Hneg. lia.
  - destruct (RandStr_panics 10 "alphanumeric" counting_source) as (_ & Hpos & _).
    apply Hpos; [exact Hunknown|lia].
  - destruct (RandStr_panics 0 "alphanumeric" counting_source) as (_ & _ & Hzero).
    apply Hzero; [exact Hunknown|reflexivity].
Defined.

Lemma String_get_of_list (l : list ascii) (i : nat) :
  String.get i (string_of_list_ascii l) = l !! i.
Proof.
  revert i. induction l as [|a l IH]; intros [|i]; simpl; done.
Qed.

Lemma RandStr_range_lookup (dictionary : string) (bytes out : list ascii) :
  RandStr_range dictionary bytes = Some out →
  ∀ i v, bytes !! i = Some v →
  out !! i
  = String.get (N.to_nat (N_of_ascii v mod byte_of_len dictionary)%N) dictionary.
Proof.
  revert out. induction bytes as [|b rest IH]; intros out Hrun i v Hv;
    [by rewrite lookup_nil in Hv|].
  simpl in Hrun. destruct (byte_of_len dictionary =? 0)%N; [discriminate|].
  destruct (String.get _ dictionary) as [c|] eqn:Hc; [|discriminate].
  destruct (RandStr_range dictionary rest) as [rest'|] eqn:Hrest; [|discriminate].
  injection Hrun as <-. destruct i as [|i]; simpl in *.
  - injection Hv as <-. by rewrite Hc.
  - by apply (IH rest' eq_refl).
Qed.

(** X21: with the class [alphanum] and a size [strSize] from 0 to
    [2^31 - 1], every output position depends on the byte read at that
    position only: character [i] is the symbol whose index in the
    36-symbol alphabet is the remainder of byte [i] by 36; and the random
    source is left [strSize] bytes further. *)
Theorem RandStr_alphanum_byte_mapping (strSize : Z) (src : RandSrc) (i : nat) :
  (0 <= strSize <= portable_size)%Z → (i < Z.to_nat strSize)%nat →
  ∃ s src',
    RandStr strSize "alphanum" src = Some (s, src') ∧
    String.get i s
    = String.get (N.to_nat (N_of_ascii (src i) mod 36)%N)
        "0123456789abcdefghijklmnopqrstuvwxyz" ∧
    ∀ j, src' j = src (Z.to_nat strSize + j)%nat.
Proof.
  intros Hn Hi.
  rewrite RandStr_alphanum_unfold, (portable_size_accepted strSize Hn).
  destruct (RandStr_range_total "0123456789abcdefghijklmnopqrstuvwxyz"
              (src <$> seq 0 (Z.to_nat strSize)))
    as (out & Hout & _); [discriminate|].
  rewrite Hout. eexists _, _. split; [reflexivity|]. split; [|done].
  rewrite String_get_of_list.
  apply (RandStr_range_lookup _ _ _ Hout).
  by rewrite list_lookup_fmap, lookup_seq_lt.
Qed.

Lemma RandStr_alphanum_byte_mapping_witness :
  ∃ s src',
    RandStr 10 "alphanum" counting_source = Some (s, src') ∧
    String.get 3 s
    = String.get (N.to_nat (N_of_ascii (counting_source 3%nat) mod 36)%N)
        "0123456789abcdefghijklmnopqrstuvwxyz" ∧
    ∀ j, src' j = counting_source (Z.to_nat 10 + j)%nat.
Proof.
  apply (RandStr_alphanum_byte_mapping 10 counting_source 3);
    [unfold portable_size; lia|].
  apply Nat.ltb_lt. reflexivity.
Defined.

(** ** The permission check, as the file loop applies it *)

Lemma perm_check_accepts (perm : string) :
  perm_check perm = true ↔
  perm = EmptyString ∨ perm = "0" ∨
  ∃ pre core post, perm = pre +:+ core +:+ post ∧ octal_perm core = true.
Proof.
  unfold perm_check.
  destruct (String.eqb_spec perm EmptyString) as [->|Hne]; [split; [by left|done]|].
  destruct (String.eqb_spec perm "0") as [->|Hn0]; [split; [by right; left|done]|].
  cbn [orb]. rewrite re_Match_permReg_substring. split; [by right; right|].
  by intros [?|[?|?]].
Qed.

(** X22: a file mount that names a catalogued file passes the file
    loop of [Validate] exactly when its permission string is empty, is the
    literal [0], or contains, anywhere, a zero followed by three octal
    digits. *)
Theorem Validate_range_Files_perm_accepted fset idx (f : UserFileReference) σ :
  map_has fset (fref_Filename f) = true →
  (Validate_range_Files fset idx [f] σ = (inr (), σ) ↔
   fref_Perm f = EmptyString ∨ fref_Perm f = "0" ∨
   ∃ pre core post, fref_Perm f = pre +:+ core +:+ post ∧ octal_perm core = true).
Proof.
  intros Hf. rewrite Validate_range_Files_cons, Hf, <- perm_check_accepts.
  destruct (perm_check (fref_Perm f)); [done|].
  split; [intros [=]|done].
Qed.

Lemma Validate_range_Files_perm_accepted_witness :
  Validate_range_Files (key_map ["a"]) 0 [mkFileReference "a" "u+x,0644"]
    (catalogued_pod [])
  = (inr (), catalogued_pod []).
Proof.
  apply Validate_range_Files_perm_accepted.
  - vm_compute. reflexivity.
  - right. right. exists "u+x,", "0644", EmptyString. split; reflexivity.
Defined.

(** ** [ProcessPodFile] *)

(** X23: [ProcessPodFile] never panics and returns either no record
    with an error, or a record with a nil error; in the second case
    [os.Stat] did not report the file missing, [ioutil.ReadFile] returned
    a content, and the record is the one [ProcessPodBytes] returns for that
    content from the same random source. *)
Theorem ProcessPodFile_result
    (json_Unmarshal : string → string + UserPod)
    (os_Stat : string → option os_error)
    (ioutil_ReadFile : string → os_error + string) jsonFile src :
  ∃ r src',
    ProcessPodFile json_Unmarshal os_Stat ioutil_ReadFile jsonFile src
    = Some (r, src') ∧
    ((∃ msg, r = (None, Some msg)) ∨
     (∃ p body,
        r = (Some p, None) ∧
        (∀ err, os_Stat jsonFile = Some err → oserr_IsNotExist err = false) ∧
        ioutil_ReadFile jsonFile = inr body ∧
        ProcessPodBytes json_Unmarshal body src = Some ((Some p, None), src'))).
Proof.
  unfold ProcessPodFile.
  destruct (os_Stat jsonFile) as [err|] eqn:Hstat.
  - destruct (oserr_IsNotExist err) eqn:Hne.
    { eexists _, _. split; [reflexivity|]. left. by eexists. }
    destruct (ioutil_ReadFile jsonFile) as [rerr|body] eqn:Hread.
    { eexists _, _. split; [reflexivity|]. left. by eexists. }
    destruct (ProcessPodBytes_total json_Unmarshal body src) as (r & src' & Hrun).
    exists r, src'. split; [done|].
    destruct (ProcessPodBytes_inv _ _ _ _ _ Hrun)
      as [(e & _ & -> & _)|(q & name & _ & Hr & _)]; [left; by eexists|].
    destruct (structurally_sound_dec (resource_defaults (set_pod_Name q name)))
      as [Hok|Hbad].
    + rewrite (structural_checks_pass _ Hok) in Hr. subst r. right.
      eexists _, body. split; [reflexivity|]. split; [|done].
      by intros ? [= <-].
    + destruct (structural_checks_fail _ Hbad) as [msg Hmsg]. left.
      exists msg. congruence.
  - destruct (ioutil_ReadFile jsonFile) as [rerr|body] eqn:Hread.
    { eexists _, _. split; [reflexivity|]. left. by eexists. }
    destruct (ProcessPodBytes_total json_Unmarshal body src) as (r & src' & Hrun).
    exists r, src'. split; [done|].
    destruct (ProcessPodBytes_inv _ _ _ _ _ Hrun)
      as [(e & _ & -> & _)|(q & name & _ & Hr & _)]; [left; by eexists|].
    destruct (structurally_sound_dec (resource_defaults (set_pod_Name q name)))
      as [Hok|Hbad].
    + rewrite (structural_checks_pass _ Hok) in Hr. subst r. right.
      eexists _, body. split; [reflexivity|]. split; [|done]. by intros ? [=].
    + destruct (structural_checks_fail _ Hbad) as [msg Hmsg]. left.
      exists msg. congruence.
Qed.

(** ** The errors of the reference checks can be read back *)

Lemma append_inv_head (s t t' : string) : s +:+ t = s +:+ t' → t = t'.
Proof. induction s as [|a s IH]; simpl; [done|]. intros [= H]. by apply IH. Qed.

Lemma list_ascii_of_string_append (s t : string) :
  list_ascii_of_string (s +:+ t) = list_ascii_of_string s ++ list_ascii_of_string t.
Proof. induction s as [|a s IH]; simpl; [done|]. by rewrite IH. Qed.

Lemma append_inv_tail (s s' t : string) : s +:+ t = s' +:+ t → s = s'.
Proof.
  intros H. apply (f_equal list_ascii_of_string) in H.
  rewrite !list_ascii_of_string_append in H. apply app_inv_tail in H.
  rewrite <- (string_of_list_ascii_of_string s),
    <- (string_of_list_ascii_of_string s'). by rewrite H.
Qed.

Lemma itoa_inj (a b : Z) : itoa a = itoa b → a = b.
Proof.
  unfold itoa. intros H. apply DecimalZ.to_int_inj.
  assert (Hnn : ∀ z, Z.to_int z ≠ Decimal.Pos Decimal.Nil ∧
                     Z.to_int z ≠ Decimal.Neg Decimal.Nil).
  { intros [|p|p]; simpl; split; try discriminate;
      intros [= Hp]; by apply DecimalPos.Unsigned.to_uint_nonnil in Hp. }
  destruct (Hnn a) as [Ha1 Ha2]. destruct (Hnn b) as [Hb1 Hb2].
  pose proof (NilZero.isi _ Ha1 Ha2) as Ea.
  pose proof (NilZero.isi _ Hb1 Hb2) as Eb.
  rewrite H in Ea. congruence.
Qed.

Lemma string_of_uint_digits (u : Decimal.uint) :
  Forall (λ c, is_digit c = true) (list_ascii_of_string (NilEmpty.string_of_uint u)).
Proof. induction u; simpl; by constructor. Qed.

(** The decimal text of a container index holds digits only. *)
Lemma itoa_nat_digits (n : nat) :
  Forall (λ c, is_digit c = true) (list_ascii_of_string (itoa (Z.of_nat n))).
Proof.
  unfold itoa. destruct (Z.of_nat n) as [|p|p] eqn:Hn; [by repeat constructor| |lia].
  simpl. pose proof (DecimalPos.Unsigned.to_uint_nonnil p) as Hp.
  pose proof (string_of_uint_digits (Pos.to_uint p)) as Hd.
  by destruct (Pos.to_uint p).
Qed.

(** Two texts that start with digits and then a comma agree on the
    digits and on what follows the comma. *)
Lemma digits_comma_inv (s s' r r' : string) :
  Forall (λ c, is_digit c = true) (list_ascii_of_string s) →
  Forall (λ c, is_digit c = true) (list_ascii_of_string s') →
  s +:+ String "," r = s' +:+ String "," r' →
  s = s' ∧ r = r'.
Proof.
  revert s'. induction s as [|a s IH]; intros [|a' s'] Hs Hs' H; simpl in *.
  - by injection H as ->.
  - injection H as <- _. apply Forall_cons in Hs' as [Ha _]. discriminate Ha.
  - injection H as -> _. apply Forall_cons in Hs as [Ha _]. discriminate Ha.
  - injection H as -> H.
    apply Forall_cons in Hs as [_ Hs]. apply Forall_cons in Hs' as [_ Hs'].
    destruct (IH s' Hs Hs' H) as [-> ->]. done.
Qed.

(** X25: the errors of the four reference and uniqueness checks that
    print the container index can be read back: two duplicate-mount (or
    duplicate-environment) errors are equal only for equal indices, and two
    dangling-file (or dangling-volume) errors are equal only for equal
    indices and equal missing names. *)
Theorem reference_errors_identify (i j : nat) (n m : string) :
  (dup_mount_error i = dup_mount_error j → i = j) ∧
  (dup_env_error i = dup_env_error j → i = j) ∧
  (file_error i n = file_error j m → i = j ∧ n = m) ∧
  (volume_error i n = volume_error j m → i = j ∧ n = m).
Proof.
  split; [|split; [|split]].
  - rewrite !dup_mount_error_text. intros [= H].
    apply append_inv_head, append_inv_tail, itoa_inj in H. lia.
  - rewrite !dup_env_error_text. intros [= H].
    apply append_inv_head, append_inv_tail, itoa_inj in H. lia.
  - rewrite !file_error_text. intros [= H]. apply append_inv_head in H.
    change (", file " +:+ ?x) with (String "," (" file " +:+ x)) in H.
    apply digits_comma_inv in H as [Hi Hn]; [|apply itoa_nat_digits..].
    apply itoa_inj in Hi. apply append_inv_head, append_inv_tail in Hn.
    split; [lia|done].
  - rewrite !volume_error_text. intros [= H]. apply append_inv_head in H.
    change (", volume " +:+ ?x) with (String "," (" volume " +:+ x)) in H.
    apply digits_comma_inv in H as [Hi Hn]; [|apply itoa_nat_digits..].
    apply itoa_inj in Hi. apply append_inv_head, append_inv_tail in Hn.
    split; [lia|done].
Qed.

Lemma reference_errors_identify_witness :
  2%nat = 2%nat ∧ "zz" = "zz".
Proof.
  destruct (reference_errors_identify 2 2 "zz" "zz") as (_ & _ & Hfile & _).
  apply Hfile. reflexivity.
Defined.

(** ** The reference checks: which dangling reference is reported *)

Lemma Forall_first_failure {A : Type} (P : A → Prop) `{!∀ x, Decision (P x)}
    (l : list A) :
  ¬ Forall P l → ∃ pre x post, l = pre ++ x :: post ∧ Forall P pre ∧ ¬ P x.
Proof.
  induction l as [|a l IH]; intros Hbad; [destruct Hbad; constructor|].
  destruct (decide (P a)) as [Ha|Ha].
  - destruct IH as (pre & x & post & -> & Hpre & Hx).
    { intros Hl. apply Hbad. by constructor. }
    exists (a :: pre), x, post. repeat split; [by constructor|done].
  - exists [], a, l. repeat split; [constructor|done].
Qed.

Lemma file_mounts_ok fnames (files : list UserFileReference) :
  Forall (λ f, fref_Filename f ∈ fnames) files →
  Forall (λ f, perm_check (fref_Perm f) = true) files →
  Forall (file_mount_ok fnames) files.
Proof.
  induction 1 as [|f files Hf _ IH]; intros Hp; [constructor|].
  apply Forall_cons in Hp as [Hp Hps]. constructor; [by split|by apply IH].
Qed.

(** Containers in front of the first dangling reference whose
    permission strings pass: they pass every check. *)
Lemma containers_before_ok (pod : UserPod) (pre : list UserContainer) :
  Forall mounts_unique pre →
  Forall (references_resolve pod) pre →
  Forall files_perms_pass pre →
  Forall (container_ok (volume_names pod) (file_names pod)) pre.
Proof.
  induction 1 as [|c pre Hu _ IH]; intros Hr Hp; [constructor|].
  apply Forall_cons in Hr as [[Hf Hv] Hr]. apply Forall_cons in Hp as [Hp Hps].
  constructor; [|by apply IH].
  split; [done|]. split; [by apply file_mounts_ok|done].
Qed.

(** A pod with a dangling reference has a first one. *)
Lemma dangling_has_first (pod : UserPod) :
  dangling pod →
  (∃ pre c fpre f, first_dangling_file pod pre c fpre f) ∨
  (∃ pre c vpre v, first_dangling_volume pod pre c vpre v).
Proof.
  intros Hd.
  assert (Hdec : ∀ c, Decision (references_resolve pod c))
    by (intros c; unfold references_resolve, files_resolve, volumes_resolve; apply _).
  destruct (Forall_first_failure (references_resolve pod) (pod_Containers pod))
    as (pre & c & post & Hsplit & Hpre & Hc).
  { intros Hall. apply (resolve_not_dangling pod); [| |done].
    - eapply Forall_impl; [exact Hall|]. by intros ? [? _].
    - eapply Forall_impl; [exact Hall|]. by intros ? [_ ?]. }
  destruct (decide (files_resolve (file_names pod) c)) as [Hf|Hf].
  - right.
    destruct (Forall_first_failure (λ v, vref_Volume v ∈ volume_names pod)
                (ctr_Volumes c)) as (vpre & v & vpost & Hv & Hvpre & Hbad).
    { intros Hv. apply Hc. by split. }
    exists pre, c, vpre, v. repeat split; eauto.
  - left.
    destruct (Forall_first_failure (λ f, fref_Filename f ∈ file_names pod)
                (ctr_Files c)) as (fpre & f & fpost & Hfs & Hfpre & Hbad);
      [done|].
    exists pre, c, fpre, f. repeat split; eauto.
Qed.

Lemma Validate_first_dangling_file_unique (pod : UserPod) pre c fpre f :
  catalogs_unique pod → containers_unique pod →
  first_dangling_file pod pre c fpre f →
  perms_pass_before_file pre fpre →
  Validate pod = file_error (length pre) (fref_Filename f).
Proof.
  intros Hcat Huniq ([post Hsplit] & Hpre & [fpost Hfiles] & Hfpre & Hf) [Hpp Hfp].
  unfold containers_unique in Huniq. rewrite Hsplit in Huniq.
  apply Forall_app in Huniq as [Hupre [Hu _]%Forall_cons].
  rewrite (Validate_after_passing pod pre (c :: post) Hcat Hsplit
             (containers_before_ok pod pre Hupre Hpre Hpp)).
  rewrite Validate_range_Containers_cons.
  destruct (mounts_unique_keySet c Hu) as [-> ->].
  rewrite Hfiles, (Validate_range_Files_skip _ _ _ _ _ (file_mounts_ok _ _ Hfpre Hfp)),
    Validate_range_Files_cons, map_has_key_map.
  by rewrite bool_decide_eq_false_2.
Qed.

Lemma Validate_first_dangling_volume_unique (pod : UserPod) pre c vpre v :
  catalogs_unique pod → containers_unique pod →
  first_dangling_volume pod pre c vpre v →
  perms_pass_before_volume pre c →
  Validate pod = volume_error (length pre) (vref_Volume v).
Proof.
  intros Hcat Huniq ([post Hsplit] & Hpre & Hfr & [vpost Hvols] & Hvpre & Hv)
    [Hpp Hcp].
  unfold containers_unique in Huniq. rewrite Hsplit in Huniq.
  apply Forall_app in Huniq as [Hupre [Hu _]%Forall_cons].
  rewrite (Validate_after_passing pod pre (c :: post) Hcat Hsplit
             (containers_before_ok pod pre Hupre Hpre Hpp)).
  rewrite Validate_range_Containers_cons.
  destruct (mounts_unique_keySet c Hu) as [-> ->].
  rewrite (Validate_range_Files_pass _ _ _ _ (file_mounts_ok _ _ Hfr Hcp)).
  rewrite Hvols, (Validate_range_Volumes_skip _ _ _ _ _ Hvpre),
    Validate_range_Volumes_cons, map_has_key_map.
  by rewrite bool_decide_eq_false_2.
Qed.

(** C3 (amended): for a pod that passes the catalog and per-container
    uniqueness checks, [Validate] fails whenever some file mount or volume
    mount names an entry absent from its catalog, and such a pod has a
    first dangling reference in validation order; provided every
    permission string validated before that first dangling reference
    passes the permission check, the error names the index of its
    container and its missing name; if no reference dangles and every
    permission string passes, [Validate] succeeds. *)
Theorem C3_Validate_references (pod : UserPod) :
  catalogs_unique pod → containers_unique pod →
  (dangling pod →
   Validate pod ≠ None ∧
   ((∃ pre c fpre f, first_dangling_file pod pre c fpre f) ∨
    (∃ pre c vpre v, first_dangling_volume pod pre c vpre v))) ∧
  (∀ pre c fpre f,
     first_dangling_file pod pre c fpre f → perms_pass_before_file pre fpre →
     Validate pod = file_error (length pre) (fref_Filename f)) ∧
  (∀ pre c vpre v,
     first_dangling_volume pod pre c vpre v → perms_pass_before_volume pre c →
     Validate pod = volume_error (length pre) (vref_Volume v)) ∧
  (perms_pass pod → ¬ dangling pod → Validate pod = None).
Proof.
  intros Hcat Huniq. split; [|split; [|split]].
  - intros Hd. split; [|by apply dangling_has_first].
    rewrite (Validate_catalogs_unique pod Hcat).
    destruct (Validate_range_Containers_outcome (vol_Name <$> pod_Volumes pod)
                (file_Name <$> pod_Files pod) _ Huniq 0%nat pod)
      as [(Hf & Hv & _ & _)|[msg ->]]; [|done].
    by destruct (resolve_not_dangling pod Hf Hv).
  - intros pre c fpre f Hfirst Hperm.
    by apply (Validate_first_dangling_file_unique pod pre c fpre f).
  - intros pre c vpre v Hfirst Hperm.
    by apply (Validate_first_dangling_volume_unique pod pre c vpre v).
  - intros Hperm Hd. rewrite (Validate_catalogs_unique pod Hcat).
    destruct (Validate_range_Containers_cases (vol_Name <$> pod_Volumes pod)
                (file_Name <$> pod_Files pod) _ Huniq Hperm 0%nat pod)
      as [(_ & _ & ->)|(j & c & name & Hj & Hcase)]; [done|].
    destruct Hd. exists j, name.
    destruct Hcase as [(Hin & Hout & _)|(Hin & Hout & _)];
      [left|right]; by exists c.
Qed.

Lemma C3_Validate_references_witness :
  Validate pod_dangling_file ≠ None ∧
  Validate pod_dangling_file = file_error 1 "zz" ∧
  Validate pod_dangling_then_bad_perm = file_error 0 "zz" ∧
  Validate (pod_with_perm "0755") = None.
Proof.
  assert (Hcat : ∀ containers name,
             catalogs_unique (mkPod "p" containers [mkFile "a"] [mkVolume name]))
    by (intros; split; apply NoDup_singleton).
  split; [|split; [|split]].
  - destruct (C3_Validate_references pod_dangling_file (Hcat _ _))
      as (Hfail & _); [repeat constructor|].
    apply Hfail. exists 1%nat, "zz". left. eexists. split; [reflexivity|].
    split; apply (bool_decide_unpack _); vm_compute; reflexivity.
  - destruct (C3_Validate_references pod_dangling_file (Hcat _ _))
      as (_ & Hfile & _); [repeat constructor|].
    apply (Hfile [mkContainer "busybox" []]
             (mkContainer "busybox"
                [mkFileReference "a" "0755"; mkFileReference "zz" EmptyString])
             [mkFileReference "a" "0755"] (mkFileReference "zz" EmptyString)).
    + split; [by exists []|]. split; [repeat constructor|].
      split; [by exists []|]. split; [repeat constructor|].
      apply (bool_decide_unpack _). vm_compute. reflexivity.
    + split; repeat constructor.
  - destruct (C3_Validate_references pod_dangling_then_bad_perm)
      as (_ & Hfile & _);
      [split; [constructor|apply NoDup_singleton]|repeat constructor|].
    apply (Hfile [] (mkContainer "busybox" [mkFileReference "zz" EmptyString])
             [] (mkFileReference "zz" EmptyString)).
    + split; [by eexists|]. split; [constructor|].
      split; [by exists []|]. split; [constructor|].
      apply (bool_decide_unpack _). vm_compute. reflexivity.
    + split; constructor.
  - destruct (C3_Validate_references (pod_with_perm "0755"))
      as (_ & _ & _ & Hok);
      [split; [constructor|apply NoDup_singleton]|repeat constructor|].
    apply Hok; [repeat constructor|].
    apply resolve_not_dangling; repeat constructor.
Defined.
